(** * Balloon snapshot ingestion: row validation, snapshot fetching,
      the [useWindborne] hook in its two variants, and the caching proxy.

    JavaScript numbers are IEEE-754 binary64 values; they are modelled by the
    kernel's primitive [float], whose comparisons are the IEEE ones (every
    comparison with NaN is false). *)

From Stdlib Require Import ZArith Floats.
From stdpp Require Import base list strings gmap pretty.

Open Scope string_scope.
Open Scope list_scope.
Set Warnings "-register-all".

(** ** JavaScript values *)

(** A value of TypeScript type [unknown], as far as the ingestion code can
    tell values apart. An object is its list of own properties. *)
Inductive value : Type :=
  | VUndefined
  | VNull
  | VBool (b : bool)
  | VNumber (n : float)
  | VString (s : string)
  | VArray (elems : list value)
  | VObject (props : list (string * value)).

Inductive jstype : Set :=
  | TUndefined | TObject | TBoolean | TNumber | TString.

Global Instance jstype_eq_dec : EqDecision jstype.
Proof. solve_decision. Defined.

(** [typeof v] *)
Definition typeof (v : value) : jstype :=
  match v with
  | VUndefined => TUndefined
  | VNull => TObject
  | VBool _ => TBoolean
  | VNumber _ => TNumber
  | VString _ => TString
  | VArray _ => TObject
  | VObject _ => TObject
  end.

(** [Array.isArray(v)] *)
Definition Array_isArray (v : value) : bool :=
  match v with VArray _ => true | _ => false end.

(** [v.length] of an array. *)
Definition array_length (v : value) : nat :=
  match v with VArray elems => length elems | _ => 0 end.

(** [v[i]] of an array: reading past the end gives [undefined]. *)
Definition index (v : value) (i : nat) : value :=
  match v with VArray elems => nth i elems VUndefined | _ => VUndefined end.

Fixpoint assoc (k : string) (props : list (string * value)) : value :=
  match props with
  | [] => VUndefined
  | (k', v) :: rest => if String.eqb k k' then v else assoc k rest
  end.

(** [v?.k]: [undefined] on [null] and [undefined], and on every value that
    has no own property [k]. *)
Definition opt_prop (v : value) (k : string) : value :=
  match v with
  | VObject props => assoc k props
  | _ => VUndefined
  end.

(** ** Numbers *)

Module Num.
(** [x > y] and [x >= y] are the IEEE comparisons with swapped operands. *)
Definition gtb (x y : float) : bool := PrimFloat.ltb y x.
Definition geb (x y : float) : bool := PrimFloat.leb y x.

(** Membership in the closed interval [[lo, hi]]; NaN is in no interval. *)
Definition within (lo hi x : float) : bool :=
  PrimFloat.leb lo x && PrimFloat.leb x hi.

(** Strictly below [lo] or strictly above [hi]; NaN is on neither side. *)
Definition outside (lo hi x : float) : bool :=
  PrimFloat.ltb x lo || PrimFloat.ltb hi x.

(** The number of a length or counter, exact below 2^53. *)
Definition of_nat (n : nat) : float :=
  PrimFloat.of_uint63 (Uint63.of_Z (Z.of_nat n)).
End Num.

(** ** Points and the row validator *)

Record Point : Type := mkPoint {
  lat : float;
  lon : float;
  alt_km : option float   (* [number | null] *)
}.

(** The object literal [{ lat, lon, alt_km }] as a value. *)
Definition value_of_point (p : Point) : value :=
  VObject [ ("lat", VNumber (lat p));
            ("lon", VNumber (lon p));
            ("alt_km", match alt_km p with Some a => VNumber a | None => VNull end) ].

(** The tuple [[lat, lon, alt_km]] that carries the fields of a point. *)
Definition row_of_point (p : Point) : value :=
  VArray [ VNumber (lat p);
           VNumber (lon p);
           match alt_km p with Some a => VNumber a | None => VNull end ].

Definition parseRow (row : value) : option Point :=
  if negb (Array_isArray row) || (array_length row <? 2)%nat then None
  else
    let lat := index row 0 in
    let lon := index row 1 in
    let alt := index row 2 in
    match lat, lon with
    | VNumber lat, VNumber lon =>
        if PrimFloat.ltb lat (-90) || Num.gtb lat 90
           || PrimFloat.ltb lon (-180) || Num.gtb lon 180
        then None
        else
          let alt_km :=
            match alt with
            | VNumber alt =>
                if Num.geb alt 0 && PrimFloat.leb alt 40 then Some alt else None
            | _ => None
            end in
          Some {| lat := lat; lon := lon; alt_km := alt_km |}
    | _, _ => None
    end.

(** The range constraints of the data model. *)
Definition valid_point (p : Point) : bool :=
  Num.within (-90) 90 (lat p)
  && Num.within (-180) 180 (lon p)
  && match alt_km p with Some a => Num.within 0 40 a | None => true end.

(** ** The snapshot fetcher *)

Definition pad2 (s : string) : string :=
  if (String.length s <? 2)%nat then ("0" ++ s)%string else s.

(** [Array.from({ length: 24 }, (_, i) => i.toString().padStart(2, "0"))] *)
Definition HOURS : list string :=
  Eval vm_compute in map (fun i : nat => pad2 (pretty i)) (seq 0 24).

Definition WB_BASE : string := "/api/wb/treasure/".

(** What the client sees of an HTTP response: [res.ok], [res.status], and
    the outcome of [res.json()], which rejects when the body is not JSON. *)
Record Response : Type := mkResponse {
  ok : bool;
  status : Z;
  json : option value
}.

Inductive failure : Type :=
  | NetworkError                            (* [fetch] itself rejected *)
  | HttpError (hh : string) (code : Z)      (* [WB ${hh}.json HTTP ${status}] *)
  | SyntaxError.                            (* [res.json()] rejected *)

(** How a promise settles. *)
Inductive settlement (A : Type) : Type :=
  | Resolved (a : A)
  | Rejected (e : failure).
Arguments Resolved {A} a.
Arguments Rejected {A} e.

(** [xs.filter(Boolean)] on a list of [Point | null]: a point is an object,
    hence truthy, and [null] is falsy. *)
Fixpoint filter_Boolean (xs : list (option Point)) : list Point :=
  match xs with
  | [] => []
  | Some p :: rest => p :: filter_Boolean rest
  | None :: rest => filter_Boolean rest
  end.

(** The [rows] of a decoded body. *)
Definition rows_of (data : value) : list value :=
  match data with
  | VArray rows => rows
  | _ =>
      match opt_prop data "points" with
      | VArray rows => rows
      | _ => []
      end
  end.

(** The values [res.json()] can resolve with: JSON text has no [undefined]
    and no NaN (a number too large for binary64 decodes to an infinity). *)
Fixpoint decoded (v : value) : bool :=
  match v with
  | VUndefined => false
  | VNumber n => negb (PrimFloat.is_nan n)
  | VArray elems => forallb decoded elems
  | VObject props => forallb (fun kv => decoded (snd kv)) props
  | _ => true
  end.

Section Fetcher.
(** The network: what [fetch(url, { cache: "no-store" })] settles with;
    [None] is a rejected request. *)
Variable net : string -> option Response.

Definition fetchHour (hh : string) : settlement (list Point) :=
  let url := (WB_BASE ++ hh ++ ".json")%string in
  match net url with
  | None => Rejected NetworkError
  | Some res =>
      if negb (ok res) then Rejected (HttpError hh (status res))
      else
        match json res with
        | None => Rejected SyntaxError
        | Some data => Resolved (filter_Boolean (map parseRow (rows_of data)))
        end
  end.
End Fetcher.

(** The promise of iteration [idx] of [HOURS.forEach] (or [HOURS.map]):
    [fetchHour(hh)] for the label at that index. *)
Definition hourly (net : string -> option Response) (idx : nat)
  : settlement (list Point) :=
  fetchHour net (nth idx HOURS "").

(** ** JavaScript arrays of point lists *)

(** A [Point[][]] as the runtime has it: a slot that was never written is a
    hole and reads as [undefined] ([None]). *)
Abbreviation slots := (list (option (list Point))).

(** [Array.from({ length: n }, () => [])] *)
Definition Array_from_empty (n : nat) : slots := replicate n (Some []).

(** [next[idx] = points] on a copy of the array: in range the slot is
    replaced, past the end the array grows and the gap is left as holes. *)
Definition array_set (idx : nat) (points : list Point) (arr : slots) : slots :=
  if (idx <? length arr)%nat then <[idx := Some points]> arr
  else arr ++ replicate (idx - length arr) None ++ [Some points].

(** Every slot holds a list of points: no hole, no [undefined]. *)
Definition dense (arr : slots) : bool :=
  forallb (fun s : option (list Point) => bool_decide (is_Some s)) arr.

(** Every stored Point satisfies the range constraints. *)
Definition all_valid (arr : slots) : Prop :=
  Forall (fun s : option (list Point) =>
            match s with
            | Some points => Forall (fun p => valid_point p = true) points
            | None => True
            end) arr.

(** An array with one list of points for each hour. *)
Definition full (arr : slots) : Prop :=
  length arr = length HOURS ∧ dense arr = true.

(** ** The hook state and its setters *)

(** The four [useState] cells; the batch variant has no [progress] cell
    and leaves the field untouched. *)
Record HookState : Type := mkHookState {
  loading : bool;
  error : string;
  byHour : slots;
  progress : float
}.

(** A call of a state setter; [SetByHourWith] is the call with an updater
    function, which React applies to the previous value. *)
Inductive update : Type :=
  | SetLoading (b : bool)
  | SetError (msg : string)
  | SetByHour (arr : slots)
  | SetByHourWith (updater : slots -> slots)
  | SetProgress (p : float).

Definition apply_update (s : HookState) (u : update) : HookState :=
  match u with
  | SetLoading b =>
      {| loading := b; error := error s; byHour := byHour s; progress := progress s |}
  | SetError msg =>
      {| loading := loading s; error := msg; byHour := byHour s; progress := progress s |}
  | SetByHour arr =>
      {| loading := loading s; error := error s; byHour := arr; progress := progress s |}
  | SetByHourWith updater =>
      {| loading := loading s; error := error s; byHour := updater (byHour s);
         progress := progress s |}
  | SetProgress p =>
      {| loading := loading s; error := error s; byHour := byHour s; progress := p |}
  end.

Definition apply_updates (s : HookState) (us : list update) : HookState :=
  fold_left apply_update us s.

(** The points a slot ends with: the fetched list, or none after a failure. *)
Definition points_or_empty (r : settlement (list Point)) : list Point :=
  match r with Resolved points => points | Rejected _ => [] end.

(** ** The progressive hook: one promise chain per hour *)

Module Progressive.

(** The variables the effect closes over. *)
Record closure : Type := mkClosure {
  cancelled : bool;
  completed : float
}.

(** A turn of the event loop that belongs to the effect: the first
    callback of the chain of hour [idx] to run ([.then] after a resolved
    fetch, [.catch] after a rejected one), its [.finally] callback, or the
    cleanup function of the effect. *)
Inductive event : Set :=
  | Settle (idx : nat)
  | Finally (idx : nat)
  | Cleanup.

Global Instance event_eq_dec : EqDecision event.
Proof. solve_decision. Defined.

Record hook : Type := mkHook {
  state : HookState;
  env : closure;
  calls : list update   (* every setter call so far, oldest first *)
}.

(** The initial values passed to [useState]. *)
Definition mount : HookState :=
  {| loading := true; error := "";
     byHour := Array_from_empty (length HOURS); progress := 0 |}.

Section Cycle.
(** [fetched idx] is what the promise [fetchHour(hh)] of iteration [idx]
    of [HOURS.forEach] settles with. *)
Variable fetched : nat -> settlement (list Point).

Definition then_cb (idx : nat) (points : list Point) (c : closure)
  : closure * list update :=
  if cancelled c then (c, [])
  else (c, [SetByHourWith (fun prev => array_set idx points prev)]).

(** [console.warn("skip hour", hh, e)]: no state is touched. *)
Definition catch_cb (e : failure) (c : closure) : closure * list update :=
  (c, []).

Definition finally_cb (c : closure) : closure * list update :=
  if cancelled c then (c, [])
  else
    let completed' := (completed c + 1)%float in
    let c' := {| cancelled := cancelled c; completed := completed' |} in
    (c', SetProgress (completed' / Num.of_nat (length HOURS))%float
         :: (if PrimFloat.eqb completed' (Num.of_nat (length HOURS))
             then [SetLoading false] else [])).

Definition cleanup (c : closure) : closure * list update :=
  ({| cancelled := true; completed := completed c |}, []).

Definition handle (e : event) (c : closure) : closure * list update :=
  match e with
  | Settle idx =>
      match fetched idx with
      | Resolved points => then_cb idx points c
      | Rejected err => catch_cb err c
      end
  | Finally idx => finally_cb c
  | Cleanup => cleanup c
  end.

(** The body of the effect up to the dispatch of the 24 fetches. *)
Definition effect_start (s : HookState) : hook :=
  let us := [ SetLoading true; SetError "";
              SetByHour (Array_from_empty (length HOURS)); SetProgress 0 ] in
  {| state := apply_updates s us;
     env := {| cancelled := false; completed := 0 |};
     calls := us |}.

Definition step (h : hook) (e : event) : hook :=
  let '(c, us) := handle e (env h) in
  {| state := apply_updates (state h) us; env := c; calls := calls h ++ us |}.

Definition run (tr : list event) (h : hook) : hook := fold_left step tr h.

(** The setter calls made while [tr] runs from closure [c]. *)
Fixpoint emitted (tr : list event) (c : closure) : list update :=
  match tr with
  | [] => []
  | e :: rest => let '(c', us) := handle e c in us ++ emitted rest c'
  end.
End Cycle.

(** [progress] is the counter over the number of hours, and [loading] is
    off whenever the counter equals that number. *)
Definition in_step (h : hook) : Prop :=
  progress (state h) = (completed (env h) / Num.of_nat (length HOURS))%float
  ∧ (PrimFloat.eqb (completed (env h)) (Num.of_nat (length HOURS)) = true →
     loading (state h) = false).

(** The slot an event belongs to. *)
Definition slot_of (e : event) : option nat :=
  match e with Settle idx | Finally idx => Some idx | Cleanup => None end.

(** The events of slot [idx] in [tr], in order. *)
Definition chain (idx : nat) (tr : list event) : list event :=
  filter (fun e => slot_of e = Some idx) tr.

(** Every event of [tr] belongs to one of the [n] dispatched chains, or is
    the cleanup. *)
Definition dispatched (n : nat) (tr : list event) : bool :=
  forallb (fun e => match slot_of e with
                    | Some idx => (idx <? n)%nat
                    | None => true
                    end) tr.

(** No event of [tr] is the cleanup. *)
Definition live (tr : list event) : bool :=
  forallb (fun e => bool_decide (is_Some (slot_of e))) tr.

(** [tr] is a complete cycle that is never cancelled: an interleaving, in
    any order, of the 24 chains, each of which runs its first callback and
    then its [.finally] callback. *)
Definition complete_cycle (tr : list event) : bool :=
  live tr
  && dispatched (length HOURS) tr
  && forallb (fun idx => bool_decide (chain idx tr = [Settle idx; Finally idx]))
             (seq 0 (length HOURS)).

(** The number of [.finally] callbacks in [tr]. *)
Fixpoint finallies (tr : list event) : nat :=
  match tr with
  | [] => 0
  | Finally _ :: rest => S (finallies rest)
  | _ :: rest => finallies rest
  end.

(** The events of [tr] that belong to the slots below [k]. *)
Definition below (k : nat) (tr : list event) : list event :=
  List.filter (fun e => match slot_of e with
                        | Some idx => (idx <? k)%nat
                        | None => false
                        end) tr.

(** The schedule in which the chains settle one after the other. *)
Definition in_order : list event :=
  flat_map (fun idx => [Settle idx; Finally idx]) (seq 0 (length HOURS)).

End Progressive.

(** ** The batch hook: one [Promise.all] over the 24 fetches *)

Module Batch.

Inductive event : Set :=
  | AllSettled    (* the continuation after [await Promise.all(...)] *)
  | Cleanup.

Record hook : Type := mkHook {
  state : HookState;
  cancelled : bool;
  calls : list update
}.

(** The initial values passed to [useState]: [byHour] starts as [[]]. *)
Definition mount : HookState :=
  {| loading := true; error := ""; byHour := []; progress := 0 |}.

Section Cycle.
Variable fetched : nat -> settlement (list Point).

(** The array [Promise.all] resolves with: the inner [try]/[catch] turns
    a rejected fetch into [[]], so no element rejects and the order is
    the order of [HOURS]. *)
Definition all : slots :=
  map (fun idx => Some (points_or_empty (fetched idx))) (seq 0 (length HOURS)).

(** The synchronous start of the async body: the two setters before
    the [await]. Nothing inside the outer [try] throws (a setter does not,
    and no element of [Promise.all] rejects), so its [catch] branch with
    [setError] is never taken. *)
Definition effect_start (s : HookState) : hook :=
  let us := [SetLoading true; SetError ""] in
  {| state := apply_updates s us; cancelled := false; calls := us |}.

(** After the [await]: [if (!cancelled) setByHour(all)], then the [finally]
    block, [if (!cancelled) setLoading(false)]. *)
Definition handle (e : event) (cancelled : bool) : bool * list update :=
  match e with
  | AllSettled =>
      (cancelled,
       (if negb cancelled then [SetByHour all] else [])
       ++ (if negb cancelled then [SetLoading false] else []))
  | Cleanup => (true, [])
  end.

Definition step (h : hook) (e : event) : hook :=
  let '(c, us) := handle e (cancelled h) in
  {| state := apply_updates (state h) us; cancelled := c; calls := calls h ++ us |}.

Definition run (tr : list event) (h : hook) : hook := fold_left step tr h.
End Cycle.

End Batch.

(** ** The caching proxy *)

Module Proxy.

(** A query parameter of the inbound request: one string, or several. *)
Inductive param : Type :=
  | One (s : string)
  | Many (ss : list string).

Record Request : Type := mkRequest {
  method : string;
  query : gmap string param
}.

(** The upstream's answer: status, headers (names in lower case, as
    [headers.get] looks them up) and body bytes. *)
Record Upstream : Type := mkUpstream {
  up_status : Z;
  up_headers : gmap string string;
  up_body : list Byte.byte
}.

(** The response object the handler writes to. *)
Record ServerResponse : Type := mkServerResponse {
  statusCode : Z;
  headers : gmap string string;
  sent : option (list Byte.byte)   (* [None]: ended without a body *)
}.

Definition fresh : ServerResponse :=
  {| statusCode := 200; headers := ∅; sent := None |}.

Definition setHeader (name v : string) (res : ServerResponse) : ServerResponse :=
  {| statusCode := statusCode res; headers := <[name := v]> (headers res);
     sent := sent res |}.

Definition set_status (code : Z) (res : ServerResponse) : ServerResponse :=
  {| statusCode := code; headers := headers res; sent := sent res |}.

Definition send (bytes : list Byte.byte) (res : ServerResponse) : ServerResponse :=
  {| statusCode := statusCode res; headers := headers res; sent := Some bytes |}.

Definition cc : string := "max-age=0, s-maxage=60, stale-while-revalidate=300".

(** [upstream.headers.get("content-type") ?? "application/json"] *)
Definition content_type (up : Upstream) : string :=
  default "application/json" (up_headers up !! "content-type").

Section Handlers.
(** The origin: what [fetch(target)] resolves with, [None] when the
    request itself fails. *)
Variable origin : string -> option Upstream.
Variable encodeURIComponent : string -> string.

(** [Array.isArray(req.query.path) ? req.query.path.join("/")
                                   : (req.query.path || "")] *)
Definition path_seg (req : Request) : string :=
  match query req !! "path" with
  | Some (Many ss) => String.concat "/" ss
  | Some (One s) => s
  | None => ""
  end.

Definition path_target (req : Request) : string :=
  ("https://a.windbornesystems.com/" ++ path_seg req)%string.

(** [String(req.query.file || "")]: the string itself, the comma-joined
    elements of an array (an array is truthy), and the empty string when
    the parameter is missing. *)
Definition file_name (req : Request) : string :=
  match query req !! "file" with
  | Some (Many ss) => String.concat "," ss
  | Some (One s) => s
  | None => ""
  end.

Definition file_target (req : Request) : string :=
  ("https://a.windbornesystems.com/treasure/"
     ++ encodeURIComponent (file_name req))%string.

(** The path-based endpoint, [api/wb/[...path].ts]. The request to the
    origin only adds a [user-agent] header. A rejected upstream fetch
    leaves the handler's promise rejected ([None]). *)
Definition path_handler (req : Request) : option ServerResponse :=
  if String.eqb (method req) "OPTIONS" then
    Some (set_status 204
           (setHeader "Access-Control-Allow-Headers" "Content-Type"
           (setHeader "Access-Control-Allow-Methods" "GET, OPTIONS"
           (setHeader "Access-Control-Allow-Origin" "*" fresh))))
  else
    match origin (path_target req) with
    | None => None
    | Some upstream =>
        Some (send (up_body upstream)
             (setHeader "CDN-Cache-Control" cc
             (setHeader "Cache-Control" cc
             (setHeader "Access-Control-Allow-Origin" "*"
             (setHeader "Content-Type" (content_type upstream)
             (set_status (up_status upstream) fresh))))))
    end.

(** The query-based endpoint. *)
Definition file_handler (req : Request) : option ServerResponse :=
  match origin (file_target req) with
  | None => None
  | Some r =>
      Some (send (up_body r)
           (setHeader "CDN-Cache-Control"
                      "max-age=0, s-maxage=60, stale-while-revalidate=300"
           (setHeader "Cache-Control"
                      "max-age=0, s-maxage=60, stale-while-revalidate=300"
           (setHeader "Access-Control-Allow-Origin" "*"
           (setHeader "Content-Type" (content_type r)
           (set_status (up_status r) fresh))))))
  end.
End Handlers.

(** The header policy of a relayed response. *)
Definition relays (up : Upstream) (res : ServerResponse) : Prop :=
  statusCode res = up_status up
  ∧ headers res !! "Content-Type"
    = Some (default "application/json" (up_headers up !! "content-type"))
  ∧ headers res !! "Access-Control-Allow-Origin" = Some "*"
  ∧ headers res !! "Cache-Control"
    = Some "max-age=0, s-maxage=60, stale-while-revalidate=300"
  ∧ headers res !! "CDN-Cache-Control"
    = Some "max-age=0, s-maxage=60, stale-while-revalidate=300".

End Proxy.

(** ** What the page derives from [byHour] *)

Module View.

(** [byHour[hourIdx] || []]: a hole or an index past the end reads as
    [undefined]; an array, even an empty one, is truthy. *)
Definition points_at (byHour : slots) (hourIdx : nat) : list Point :=
  match byHour !! hourIdx with
  | Some (Some points) => points
  | _ => []
  end.

(** [byHour.filter(Boolean).length]: the entries that are arrays. *)
Definition loaded_hours (byHour : slots) : nat :=
  length (List.filter (fun s : option (list Point) => bool_decide (is_Some s)) byHour).

(** [byHour.reduce((a, h) => a + ((h?.length) || 0), 0)]; the sum of
    lengths is a count and stays exact. *)
Definition countAll (byHour : slots) : nat :=
  fold_left (fun a (h : option (list Point)) =>
               (a + match h with Some points => length points | None => 0 end)%nat)
            byHour 0%nat.

End View.

(** ** [Math.min], [Math.max] and [clamp] *)

Module JSMath.

Definition is_neg_zero (x : float) : bool :=
  match PrimFloat.classify x with NZero => true | _ => false end.

(** One step of [Math.max]: NaN wins, then the larger number, and of two
    zeros the positive one. *)
Definition max2 (a b : float) : float :=
  if PrimFloat.is_nan a || PrimFloat.is_nan b then nan
  else if PrimFloat.ltb a b then b
  else if PrimFloat.ltb b a then a
  else if is_neg_zero a then b else a.

(** One step of [Math.min]: NaN wins, then the smaller number, and of two
    zeros the negative one. *)
Definition min2 (a b : float) : float :=
  if PrimFloat.is_nan a || PrimFloat.is_nan b then nan
  else if PrimFloat.ltb a b then a
  else if PrimFloat.ltb b a then b
  else if is_neg_zero a then a else b.

(** [Math.max(...xs)] and [Math.min(...xs)], for argument lists the engine
    accepts; without arguments they are the infinities. *)
Definition max (xs : list float) : float := fold_left max2 xs neg_infinity.
Definition min (xs : list float) : float := fold_left min2 xs infinity.

End JSMath.

(** [Math.max(min, Math.min(max, n))] *)
Definition clamp (n min max : float) : float :=
  JSMath.max2 min (JSMath.min2 max n).

(** ** Fitting the map to the points (batch page) *)

Module Fit.

#[local] Set Warnings "-inexact-float".

(** The corners handed to [map.fitBounds]. *)
Record Bounds : Type := mkBounds {
  south : float;
  west : float;
  north : float;
  east : float
}.

Definition lat_limit : float := 89.9.
Definition lon_limit : float := 179.9.

(** The effect of [FitToBounds]: [None] when it returns without calling
    [map.fitBounds]. *)
Definition fit (points : list Point) (autoFit : bool) (force : float)
  : option Bounds :=
  if (length points =? 0)%nat then None
  else if negb autoFit && PrimFloat.eqb force 0 then None
  else
    let lats := map lat points in
    let lons := map lon points in
    let minLat := JSMath.min lats in
    let maxLat := JSMath.max lats in
    let minLon := JSMath.min lons in
    let maxLon := JSMath.max lons in
    Some {| south := clamp minLat (- lat_limit) lat_limit;
            west := clamp minLon (- lon_limit) lon_limit;
            north := clamp maxLat (- lat_limit) lat_limit;
            east := clamp maxLon (- lon_limit) lon_limit |}.

(** Neither coordinate of a point is NaN. *)
Definition located (p : Point) : bool :=
  negb (PrimFloat.is_nan (lat p)) && negb (PrimFloat.is_nan (lon p)).

End Fit.

(** ** Altitude bands (progressive page) *)

Module Legend.

Record Band : Type := mkBand {
  label : string;
  color : string;
  test : option float -> bool
}.

(** [a ?? -1] *)
Definition or_minus_one (a : option float) : float := default (-1)%float a.

(** [(a as number) < x]: in a comparison [null] counts as 0. *)
Definition below (a : option float) (x : float) : bool :=
  PrimFloat.ltb (default 0%float a) x.

Definition ALT_BANDS : list Band :=
  [ {| label := "Unknown / Ground"; color := "#6b7280";
       test := fun a => match a with
                        | None => true
                        | Some x => PrimFloat.ltb x 1
                        end |};
    {| label := "1–5 km"; color := "#22c55e";
       test := fun a => Num.geb (or_minus_one a) 1 && below a 5 |};
    {| label := "5–10 km"; color := "#3b82f6";
       test := fun a => Num.geb (or_minus_one a) 5 && below a 10 |};
    {| label := "10–20 km"; color := "#f59e0b";
       test := fun a => Num.geb (or_minus_one a) 10 && below a 20 |};
    {| label := "≥20 km"; color := "#ef4444";
       test := fun a => Num.geb (or_minus_one a) 20 |} ].

(** [ALT_BANDS.find((x) => x.test(a))] *)
Definition band_of (a : option float) : option Band :=
  List.find (fun b => test b a) ALT_BANDS.

(** The loop of [colorForAlt] returns the colour of the first band whose
    test passes, and the fallback gray when none does. *)
Definition colorForAlt (alt_km : option float) : string :=
  match band_of alt_km with
  | Some b => color b
  | None => "#6b7280"
  end.

(** The [Altitude Range] line of the popup. *)
Definition range_label (alt_km : option float) : string :=
  match band_of alt_km with
  | Some b => label b
  | None => "Unknown"
  end.

(** The bands whose test passes. *)
Definition matching (a : option float) : list Band :=
  List.filter (fun b => test b a) ALT_BANDS.

(** The position of the band of a number when the four thresholds are
    read in increasing order. *)
Definition by_threshold (x : float) : nat :=
  if PrimFloat.ltb x 1 then 0
  else if PrimFloat.ltb x 5 then 1
  else if PrimFloat.ltb x 10 then 2
  else if PrimFloat.ltb x 20 then 3
  else 4.

End Legend.

(** ** The wind query *)

Module Meteo.

(** The fields are typed [number | undefined] but hold whatever the
    decoded body has at that place. *)
Record Wx : Type := mkWx {
  tempC : value;
  windspeed10m : value;
  winddir10m : value;
  windspeed100m : value;
  winddir100m : value
}.

Inductive failure : Type :=
  | NetworkError               (* [fetch] itself rejected *)
  | HttpError (code : Z)       (* [Open-Meteo HTTP ${status}] *)
  | SyntaxError                (* [res.json()] rejected *)
  | TypeError.                 (* a property read on [null] or [undefined] *)

(** [v.k] for a property name that no built-in object defines: reading it
    on [null] or [undefined] throws, every other value without such a
    property gives [undefined]. *)
Definition prop (v : value) (k : string) : option value :=
  match v with
  | VUndefined | VNull => None
  | VObject props => Some (assoc k props)
  | _ => Some VUndefined
  end.

(** Truthiness, as [||] tests it. *)
Definition truthy (v : value) : bool :=
  match v with
  | VUndefined | VNull => false
  | VBool b => b
  | VNumber n => negb (PrimFloat.eqb n 0 || PrimFloat.is_nan n)
  | VString s => negb (String.eqb s "")
  | VArray _ | VObject _ => true
  end.

(** [v || {}] *)
Definition or_empty_object (v : value) : value :=
  if truthy v then v else VObject [].

(** [Array.isArray(v) ? v[0] : undefined] *)
Definition first_sample (v : value) : value :=
  if Array_isArray v then index v 0 else VUndefined.

(** A field of a section that [or_empty_object] returned: the section is
    truthy, so the read cannot throw. *)
Definition field (section : value) (k : string) : value :=
  default VUndefined (prop section k).

(** What the function does with the decoded body [j]. *)
Definition decode (j : value) : failure + Wx :=
  match prop j "current_weather" with
  | None => inl TypeError
  | Some cw0 =>
      let cw := or_empty_object cw0 in
      match prop j "hourly" with
      | None => inl TypeError
      | Some hourly0 =>
          let hourly := or_empty_object hourly0 in
          inr {| tempC := field cw "temperature";
                 windspeed10m := field cw "windspeed";
                 winddir10m := field cw "winddirection";
                 windspeed100m := first_sample (field hourly "windspeed_100m");
                 winddir100m := first_sample (field hourly "winddirection_100m") |}
      end
  end.

(** A URL under construction: the part before the query and the search
    parameters in order. *)
Record URL : Type := mkURL {
  base : string;
  searchParams : list (string * string)
}.

(** [url.searchParams.set(k, v)]: the first parameter named [k] takes the
    value and later ones of that name are dropped; without one the pair is
    appended. *)
Fixpoint params_drop (k : string) (ps : list (string * string))
  : list (string * string) :=
  match ps with
  | [] => []
  | (k', v') :: rest =>
      if String.eqb k k' then params_drop k rest else (k', v') :: params_drop k rest
  end.

Fixpoint params_set (k v : string) (ps : list (string * string))
  : list (string * string) :=
  match ps with
  | [] => [(k, v)]
  | (k', v') :: rest =>
      if String.eqb k k' then (k, v) :: params_drop k rest
      else (k', v') :: params_set k v rest
  end.

Definition set (k v : string) (u : URL) : URL :=
  {| base := base u; searchParams := params_set k v (searchParams u) |}.

Section Query.
(** [n.toString()] of a number, and the network as it answers a URL. *)
Variable Number_toString : float -> string.
Variable net : URL -> option Response.

Definition forecast_url (lat lon : float) : URL :=
  set "timezone" "auto"
    (set "hourly" "windspeed_100m,winddirection_100m"
      (set "current_weather" "true"
        (set "longitude" (Number_toString lon)
          (set "latitude" (Number_toString lat)
            {| base := "https://api.open-meteo.com/v1/forecast";
               searchParams := [] |})))).

Definition fetchOpenMeteo (lat lon : float) : failure + Wx :=
  match net (forecast_url lat lon) with
  | None => inl NetworkError
  | Some res =>
      if negb (ok res) then inl (HttpError (status res))
      else
        match json res with
        | None => inl SyntaxError
        | Some j => decode j
        end
  end.
End Query.

End Meteo.

(** ** The wind-query effect of the page *)

Module WindQuery.

(** The four cells the effect works with. A selected point is an object
    of a [byHour] list; [ref] stands for its identity, which is what React
    compares. *)
Record PageState : Type := mkPageState {
  selected : option (nat * Point);
  wx : option Meteo.Wx;
  wxLoading : bool;
  wxErr : string
}.

Inductive update : Type :=
  | SetSelected (ref : nat) (p : Point)
  | SetWx (r : Meteo.Wx)
  | SetWxLoading (b : bool)
  | SetWxErr (msg : string).

Definition apply_update (s : PageState) (u : update) : PageState :=
  match u with
  | SetSelected ref p =>
      {| selected := Some (ref, p); wx := wx s; wxLoading := wxLoading s;
         wxErr := wxErr s |}
  | SetWx r =>
      {| selected := selected s; wx := Some r; wxLoading := wxLoading s;
         wxErr := wxErr s |}
  | SetWxLoading b =>
      {| selected := selected s; wx := wx s; wxLoading := b; wxErr := wxErr s |}
  | SetWxErr msg =>
      {| selected := selected s; wx := wx s; wxLoading := wxLoading s;
         wxErr := msg |}
  end.

Definition apply_updates (s : PageState) (us : list update) : PageState :=
  fold_left apply_update us s.

(** The page with the [cancelled] flag of every run of the effect so far,
    oldest first, and next to it the object that was [selected] in the
    render the run belongs to (the dependency the run was started for). *)
Record page : Type := mkPage {
  state : PageState;
  flags : list bool;
  refs : list nat;
  calls : list update
}.

(** The click handler and the effect are two events: the handler only calls
    [setSelected], React commits the render with the new selection, and the
    effect runs afterwards. Between the two the page shows the new
    selection next to the cells the earlier runs have left. *)
Inductive event : Type :=
  | Click (ref : nat) (p : Point)   (* a marker's click handler *)
  | Effect                          (* React runs the effect of the committed render *)
  | Settle (run : nat)              (* the [await] of run [run] is over *)
  | Unmount.                        (* the page is torn down *)

(** At mount [selected] is null and the effect returns at once: no run. *)
Definition mount : page :=
  {| state := {| selected := None; wx := None; wxLoading := false; wxErr := "" |};
     flags := []; refs := []; calls := [] |}.

(** [useEffect(..., [selected])]: the effect is run again when [selected]
    is not the object it was run for last, and its body returns at once
    while nothing is selected. The result is the object to start a run
    for, if any. *)
Definition effect_due (pg : page) : option nat :=
  match selected (state pg) with
  | Some (ref, _) =>
      match last (refs pg) with
      | Some ref' => if (ref =? ref')%nat then None else Some ref
      | None => Some ref
      end
  | None => None                                              (* if (!selected) return *)
  end.

(** The cleanup of the latest run sets its flag. *)
Definition cancel_last (flags : list bool) : list bool :=
  match flags with
  | [] => []
  | _ => <[pred (length flags) := true]> flags
  end.

Section Effect.
(** [answers run] is what [fetchOpenMeteo(selected.lat, selected.lon)] of
    run [run] settles with, and [String_of_error] is [String(e)]. *)
Variable answers : nat -> Meteo.failure + Meteo.Wx.
Variable String_of_error : Meteo.failure -> string.

(** After the [await] of a run: the [try] or the [catch] branch, then
    [finally]; each setter is guarded by the run's own flag. *)
Definition settle (cancelled : bool) (r : Meteo.failure + Meteo.Wx) : list update :=
  (match r with
   | inr w => if negb cancelled then [SetWx w] else []
   | inl e => if negb cancelled then [SetWxErr (String_of_error e)] else []
   end)
  ++ (if negb cancelled then [SetWxLoading false] else []).

(** The new flags and the setter calls of one event. A click calls
    [setSelected] and nothing else. A run of the effect first runs the
    cleanup of the run before it, then starts its own with a fresh flag and
    calls [setWxLoading(true)] and [setWxErr("")] before the [await]. *)
Definition handle (e : event) (pg : page) : list bool * list update :=
  match e with
  | Click ref p =>
      match selected (state pg) with
      | Some (ref', _) =>
          if (ref =? ref')%nat then (flags pg, [])            (* same object: no re-render *)
          else (flags pg, [SetSelected ref p])
      | None => (flags pg, [SetSelected ref p])
      end
  | Effect =>
      match effect_due pg with
      | Some _ =>
          (cancel_last (flags pg) ++ [false], [SetWxLoading true; SetWxErr ""])
      | None => (flags pg, [])
      end
  | Settle run =>
      match flags pg !! run with
      | Some cancelled => (flags pg, settle cancelled (answers run))
      | None => (flags pg, [])                                (* no such run *)
      end
  | Unmount => (cancel_last (flags pg), [])
  end.

(** The object a run started by the event belongs to. *)
Definition started (e : event) (pg : page) : list nat :=
  match e with
  | Effect => match effect_due pg with Some ref => [ref] | None => [] end
  | _ => []
  end.

Definition step (pg : page) (e : event) : page :=
  let '(fl, us) := handle e pg in
  {| state := apply_updates (state pg) us; flags := fl;
     refs := refs pg ++ started e pg; calls := calls pg ++ us |}.

Definition run (tr : list event) (pg : page) : page := fold_left step tr pg.
End Effect.

(** The wind panel shows the stored result. *)
Definition shown (s : PageState) : option Meteo.Wx :=
  match selected s, wx s with
  | Some _, Some w =>
      if negb (wxLoading s) && String.eqb (wxErr s) "" then Some w else None
  | _, _ => None
  end.

(** Every run but the latest has been cancelled. *)
Definition single_flight (flags : list bool) : Prop :=
  ∀ i, (S i < length flags)%nat → flags !! i = Some true.


End WindQuery.

(** ** Accepted points *)

(** The Points the row validator can return. *)
Definition acceptable (p : Point) : bool :=
  negb (Num.outside (-90) 90 (lat p))
  && negb (Num.outside (-180) 180 (lon p))
  && match alt_km p with Some a => Num.within 0 40 a | None => true end.

(** * Properties *)

(** ** The order of binary64 numbers *)

Section FloatOrder.

Lemma SFcompare_antisym (x y : spec_float) :
  SFcompare y x = option_map CompOpp (SFcompare x y).
Proof.
  destruct x as [[]|[]| |[] mx ex], y as [[]|[]| |[] my ey];
    simpl; try reflexivity.
  all: rewrite (Z.compare_antisym ex ey);
    destruct (ex ?= ey)%Z; simpl; try reflexivity;
    fold (Pos.compare mx my); fold (Pos.compare my mx);
    rewrite (Pos.compare_antisym mx my);
    destruct (mx ?= my)%positive; reflexivity.
Qed.

Lemma SFcompare_defined (x y : spec_float) :
  SFeqb x x = true → SFeqb y y = true → is_Some (SFcompare x y).
Proof.
  unfold SFeqb.
  destruct x as [[]|[]| |[] mx ex]; simpl; try discriminate; intros _;
    destruct y as [[]|[]| |[] my ey]; simpl; try discriminate; eauto.
Qed.

Lemma leb_not_ltb (x y : float) :
  PrimFloat.leb x y = true → PrimFloat.ltb y x = false.
Proof.
  rewrite leb_spec, ltb_spec. unfold SFleb, SFltb.
  rewrite (SFcompare_antisym (Prim2SF x) (Prim2SF y)).
  destruct (SFcompare (Prim2SF x) (Prim2SF y)) as [[]|]; simpl; congruence.
Qed.

Lemma not_ltb_leb (x y : float) :
  PrimFloat.is_nan x = false → PrimFloat.is_nan y = false →
  PrimFloat.ltb x y = false → PrimFloat.leb y x = true.
Proof.
  unfold PrimFloat.is_nan.
  rewrite !FloatAxioms.eqb_spec, !Bool.negb_false_iff. intros Hx Hy.
  destruct (SFcompare_defined _ _ Hx Hy) as [c Hc].
  rewrite leb_spec, ltb_spec. unfold SFleb, SFltb.
  rewrite (SFcompare_antisym (Prim2SF x) (Prim2SF y)), Hc.
  destruct c; simpl; congruence.
Qed.

Lemma within_not_outside (lo hi x : float) :
  Num.within lo hi x = true → Num.outside lo hi x = false.
Proof.
  unfold Num.within, Num.outside. intros [H1 H2]%andb_true_iff.
  by rewrite (leb_not_ltb _ _ H1), (leb_not_ltb _ _ H2).
Qed.

Lemma not_outside_within (lo hi x : float) :
  PrimFloat.is_nan lo = false → PrimFloat.is_nan hi = false →
  PrimFloat.is_nan x = false →
  Num.outside lo hi x = false → Num.within lo hi x = true.
Proof.
  unfold Num.within, Num.outside. intros Hlo Hhi Hx [H1 H2]%orb_false_iff.
  by rewrite (not_ltb_leb _ _ Hx Hlo H1), (not_ltb_leb _ _ Hhi Hx H2).
Qed.

End FloatOrder.

(** ** The row validator *)

(** The rejection test of [parseRow] on two numbers, through [Num.outside]. *)
Lemma range_test (la lo : float) :
  PrimFloat.ltb la (-90) || Num.gtb la 90
    || PrimFloat.ltb lo (-180) || Num.gtb lo 180
  = Num.outside (-90) 90 la || Num.outside (-180) 180 lo.
Proof. unfold Num.outside, Num.gtb. by rewrite orb_assoc. Qed.

(** The shape of every accepted row. *)
Lemma parseRow_Some (row : value) (p : Point) :
  parseRow row = Some p →
  Array_isArray row = true
  ∧ (2 ≤ array_length row)%nat
  ∧ index row 0 = VNumber (lat p)
  ∧ index row 1 = VNumber (lon p)
  ∧ Num.outside (-90) 90 (lat p) = false
  ∧ Num.outside (-180) 180 (lon p) = false
  ∧ alt_km p = match index row 2 with
               | VNumber a => if Num.within 0 40 a then Some a else None
               | _ => None
               end.
Proof.
  unfold parseRow.
  destruct (Array_isArray row); simpl; [|discriminate].
  destruct (Nat.ltb_spec (array_length row) 2) as [|Hlen]; [discriminate|].
  destruct (index row 0) as [| | |la| | |]; try discriminate.
  destruct (index row 1) as [| | |lo| | |]; try discriminate.
  rewrite range_test.
  destruct (Num.outside (-90) 90 la) eqn:Hla; [discriminate|].
  destruct (Num.outside (-180) 180 lo) eqn:Hlo; [discriminate|].
  simpl. intros [= <-]. simpl. done.
Qed.

(** The concrete rows of the specification. The literal 5.2 is the binary64
    number nearest to it. *)
Example parseRow_full :
  parseRow (VArray [VNumber 45; VNumber (-122); VNumber 0x1.4cccccccccccdp+2])
  = Some {| lat := 45; lon := (-122); alt_km := Some 0x1.4cccccccccccdp+2%float |}.
Proof. reflexivity. Qed.

Example parseRow_altitude_dropped :
  parseRow (VArray [VNumber 45; VNumber (-122); VNumber 99])
  = Some {| lat := 45; lon := (-122); alt_km := None |}.
Proof. reflexivity. Qed.

Example parseRow_string_latitude :
  parseRow (VArray [VString "x"; VNumber (-122)]) = None.
Proof. reflexivity. Qed.

Example parseRow_infinite_latitude :
  parseRow (VArray [VNumber infinity; VNumber 0]) = None
  ∧ parseRow (VArray [VNumber neg_infinity; VNumber 0]) = None.
Proof. split; reflexivity. Qed.




(** C2: a raw record whose first two elements are numbers within the
    latitude and longitude ranges is always accepted, with those two
    numbers; its altitude is the third element exactly when that element is
    a number within [0, 40], and is absent when the third element is
    missing, not a number, or a number outside [0, 40]. *)
Theorem parseRow_lenient_altitude (row : value) (la lo : float) :
  Array_isArray row = true →
  (2 ≤ array_length row)%nat →
  index row 0 = VNumber la →
  index row 1 = VNumber lo →
  Num.within (-90) 90 la = true →
  Num.within (-180) 180 lo = true →
  ∃ p, parseRow row = Some p
       ∧ lat p = la ∧ lon p = lo
       ∧ (∀ a, alt_km p = Some a ↔ index row 2 = VNumber a ∧ Num.within 0 40 a = true)
       ∧ (typeof (index row 2) ≠ TNumber → alt_km p = None)
       ∧ (∀ a, index row 2 = VNumber a → Num.within 0 40 a = false → alt_km p = None).
Proof.
  intros Harr Hlen H0 H1 Hla%within_not_outside Hlo%within_not_outside.
  unfold parseRow. rewrite Harr, H0, H1, range_test, Hla, Hlo. simpl.
  destruct (Nat.ltb_spec (array_length row) 2) as [|_]; [lia|].
  eexists. split; [reflexivity|]. simpl.
  change (Num.geb ?a 0 && PrimFloat.leb ?a 40) with (Num.within 0 40 a).
  split; [reflexivity|]. split; [reflexivity|]. split; [|split].
  - intros a.
    destruct (index row 2) as [| | |x| | |];
      try (split; [discriminate|intros [[=] _]]).
    destruct (Num.within 0 40 x) eqn:Hx; split.
    + by intros [= <-].
    + by intros [[= <-] _].
    + discriminate.
    + intros [[= <-] ?]. congruence.
  - intros Ht. by destruct (index row 2).
  - by intros a -> ->.
Qed.

Lemma parseRow_lenient_altitude_witness :
  ∃ p, parseRow (VArray [VNumber 45; VNumber (-122); VNumber 99]) = Some p
       ∧ lat p = 45%float ∧ lon p = (-122)%float ∧ alt_km p = None.
Proof.
  destruct (parseRow_lenient_altitude
              (VArray [VNumber 45; VNumber (-122); VNumber 99]) 45 (-122))
    as (p & Hp & Hlat & Hlon & _ & _ & Hout); try reflexivity.
  - simpl. lia.
  - exists p. repeat split; try assumption.
    apply (Hout 99%float); reflexivity.
Defined.

(** C4 fails as stated: a NaN latitude passes both comparisons of the range
    test, so the row is accepted and the Point breaks its latitude range. *)
Lemma parseRow_accepts_NaN :
  parseRow (VArray [VNumber nan; VNumber 0])
  = Some {| lat := nan; lon := 0; alt_km := None |}
  ∧ valid_point {| lat := nan; lon := 0; alt_km := None |} = false.
Proof. split; reflexivity. Qed.

(** Every Point the row validator produces whose latitude and longitude
    are not NaN satisfies the range constraints. *)
Lemma parseRow_valid_point (row : value) (p : Point) :
  parseRow row = Some p →
  PrimFloat.is_nan (lat p) = false →
  PrimFloat.is_nan (lon p) = false →
  valid_point p = true.
Proof.
  intros (_ & _ & _ & _ & Hla & Hlo & Halt)%parseRow_Some Hnla Hnlo.
  unfold valid_point.
  rewrite (not_outside_within (-90) 90 (lat p)), (not_outside_within (-180) 180 (lon p));
    try done.
  rewrite Halt. simpl.
  destruct (index row 2) as [| | |a| | |]; try done.
  by destruct (Num.within 0 40 a) eqn:Ha.
Qed.

(** The altitude constraint needs no side condition. *)
Lemma parseRow_altitude_range (row : value) (p : Point) (a : float) :
  parseRow row = Some p → alt_km p = Some a → Num.within 0 40 a = true.
Proof.
  intros (_ & _ & _ & _ & _ & _ & Halt)%parseRow_Some. rewrite Halt.
  destruct (index row 2) as [| | |x| | |]; try discriminate.
  destruct (Num.within 0 40 x) eqn:Hx; [|discriminate]. by intros [= <-].
Qed.

(** Decoded rows carry no NaN, so every Point made from one is valid. *)
Lemma decoded_index (row : value) (i : nat) :
  decoded row = true → (i < array_length row)%nat → decoded (index row i) = true.
Proof.
  destruct row as [| | | | |elems|]; simpl; try lia.
  rewrite forallb_forall. intros Hall Hi. apply Hall, nth_In, Hi.
Qed.

Lemma parseRow_decoded_valid (row : value) (p : Point) :
  decoded row = true → parseRow row = Some p → valid_point p = true.
Proof.
  intros Hdec Hp. apply (parseRow_valid_point row p Hp).
  - apply parseRow_Some in Hp as (_ & Hlen & H0 & _).
    pose proof (decoded_index row 0 Hdec ltac:(lia)) as H.
    rewrite H0 in H. simpl in H. by apply Bool.negb_true_iff.
  - apply parseRow_Some in Hp as (_ & Hlen & _ & H1 & _).
    pose proof (decoded_index row 1 Hdec ltac:(lia)) as H.
    rewrite H1 in H. simpl in H. by apply Bool.negb_true_iff.
Qed.

(** C6 fails as stated: the Point a row yields is an object, not an array,
    so the validator rejects it. *)
Lemma own_point_is_rejected :
  parseRow (VArray [VNumber 45; VNumber (-122); VNumber 7])
  = Some {| lat := 45; lon := (-122); alt_km := Some 7%float |}
  ∧ parseRow (value_of_point {| lat := 45; lon := (-122); alt_km := Some 7%float |})
    = None.
Proof. split; reflexivity. Qed.

Lemma parseRow_value_of_point (p : Point) : parseRow (value_of_point p) = None.
Proof. reflexivity. Qed.

(** C6 (amended): for every raw record the row validator accepts,
    re-running the validator on the produced Point written back as a row
    [[lat, lon, alt_km]] yields the same Point. *)
Theorem parseRow_row_of_point (row : value) (p : Point) :
  parseRow row = Some p → parseRow (row_of_point p) = Some p.
Proof.
  intros Hp. pose proof (λ a, parseRow_altitude_range row p a Hp) as Halt.
  apply parseRow_Some in Hp as (_ & _ & _ & _ & Hla & Hlo & _).
  destruct p as [la lo alt]. simpl in *.
  unfold parseRow, row_of_point. simpl.
  rewrite range_test, Hla, Hlo. simpl.
  destruct alt as [a|]; [|done].
  change (Num.geb a 0 && PrimFloat.leb a 40) with (Num.within 0 40 a).
  by rewrite (Halt a eq_refl).
Qed.

Lemma parseRow_row_of_point_witness :
  parseRow (row_of_point {| lat := 45; lon := (-122); alt_km := None |})
  = Some {| lat := 45; lon := (-122); alt_km := None |}.
Proof.
  apply (parseRow_row_of_point (VArray [VNumber 45; VNumber (-122); VNumber 99])).
  reflexivity.
Defined.

(** ** The snapshot fetcher *)

(** Mapping through the validator and filtering with [Boolean] keeps, in
    order, the Points of the accepted rows. *)
Lemma filter_Boolean_map (rows : list value) :
  filter_Boolean (map parseRow rows) = omap parseRow rows.
Proof.
  induction rows as [|row rows IH]; [done|].
  simpl. destruct (parseRow row); by rewrite IH.
Qed.

Lemma rows_of_array (rows : list value) : rows_of (VArray rows) = rows.
Proof. reflexivity. Qed.

Lemma rows_of_points (data : value) (rows : list value) :
  Array_isArray data = false → opt_prop data "points" = VArray rows →
  rows_of data = rows.
Proof. destruct data; try done; simpl; by intros _ ->. Qed.

Lemma rows_of_other (data : value) :
  Array_isArray data = false → Array_isArray (opt_prop data "points") = false →
  rows_of data = [].
Proof.
  destruct data as [| | | | | |props]; try done. simpl.
  by destruct (assoc "points" props).
Qed.

Section FetcherFacts.
Variable net : string → option Response.

(** C8 (amended): given the response of a snapshot request, [fetchHour]
    fails exactly when the status is not a success or the body does not
    decode as JSON, never because of the shape of a decoded body: from a
    successful (HTTP-ok) response, a bare array has its records validated,
    an object whose [points] field is an array has that array's records
    validated, and any other decoded shape gives the empty sequence of
    Points. The failure on a non-success status carries the hour and the
    status code. *)
Theorem fetchHour_decoded_shapes (hh : string) (res : Response) :
  net (WB_BASE ++ hh ++ ".json")%string = Some res →
  (∀ data, ok res = true → json res = Some data →
     (∀ rows, data = VArray rows →
        fetchHour net hh = Resolved (omap parseRow rows))
     ∧ (∀ rows, Array_isArray data = false →
          opt_prop data "points" = VArray rows →
          fetchHour net hh = Resolved (omap parseRow rows))
     ∧ (Array_isArray data = false →
          Array_isArray (opt_prop data "points") = false →
          fetchHour net hh = Resolved []))
  ∧ (ok res = false → fetchHour net hh = Rejected (HttpError hh (status res)))
  ∧ (ok res = true → json res = None → fetchHour net hh = Rejected SyntaxError)
  ∧ ((∃ e, fetchHour net hh = Rejected e) ↔ ok res = false ∨ json res = None).
Proof.
  intros Hnet. unfold fetchHour. rewrite Hnet.
  split; [|split; [|split]].
  - intros data -> ->. simpl. rewrite filter_Boolean_map.
    split; [|split].
    + by intros rows ->.
    + intros rows Harr Hpts. by rewrite (rows_of_points data rows).
    + intros Harr Hpts. by rewrite rows_of_other.
  - by intros ->.
  - by intros -> ->.
  - destruct (ok res); simpl; [|split; eauto].
    destruct (json res); split.
    + by intros [e [=]].
    + by intros [[=]|[=]].
    + by right.
    + eauto.
Qed.

(** Every Point fetched from a decoded body satisfies the range
    constraints. *)
Lemma decoded_assoc (k : string) (props : list (string * value)) :
  forallb (λ kv, decoded (snd kv)) props = true →
  decoded (assoc k props) = true ∨ assoc k props = VUndefined.
Proof.
  induction props as [|[k' v] props IH]; [by right|].
  cbn [forallb assoc snd]. intros [Hv Hrest]%andb_true_iff.
  destruct (String.eqb k k'); [by left|by apply IH].
Qed.

Lemma decoded_rows_of (data : value) :
  decoded data = true → Forall (λ row, decoded row = true) (rows_of data).
Proof.
  assert (Harr : ∀ rows, forallb decoded rows = true →
                 Forall (λ row, decoded row = true) rows).
  { intros rows H. apply Forall_forall. intros row Hin.
    rewrite forallb_forall in H. apply H. by apply list_elem_of_In. }
  destruct data as [| | | | |rows|props]; simpl; try by constructor.
  - apply Harr.
  - intros [Hpts| ->]%(decoded_assoc "points"); [|by constructor].
    destruct (assoc "points" props); try by constructor. by apply Harr.
Qed.

Lemma omap_parseRow_valid (rows : list value) :
  Forall (λ row, decoded row = true) rows →
  Forall (λ p, valid_point p = true) (omap parseRow rows).
Proof.
  induction 1 as [|row rows Hrow _ IH]; simpl; [constructor|].
  destruct (parseRow row) as [p|] eqn:Hp; [|done].
  constructor; [|done]. by apply (parseRow_decoded_valid row).
Qed.

Lemma fetchHour_valid (hh : string) (points : list Point) :
  (∀ url res data, net url = Some res → json res = Some data → decoded data = true) →
  fetchHour net hh = Resolved points →
  Forall (λ p, valid_point p = true) points.
Proof.
  intros Hdec. unfold fetchHour.
  destruct (net _) as [res|] eqn:Hnet; [|done].
  destruct (ok res); simpl; [|done].
  destruct (json res) as [data|] eqn:Hjson; [|done].
  intros [= <-]. rewrite filter_Boolean_map.
  by eapply omap_parseRow_valid, decoded_rows_of, Hdec.
Qed.
End FetcherFacts.

Lemma fetchHour_decoded_shapes_witness :
  fetchHour (λ _, Some {| ok := true; status := 200; json := Some (VString "nothing") |})
            "07"
  = Resolved [].
Proof.
  pose proof (fetchHour_decoded_shapes
                (λ _, Some {| ok := true; status := 200; json := Some (VString "nothing") |})
                "07" _ eq_refl) as [Hok _].
  destruct (Hok (VString "nothing") eq_refl eq_refl) as (_ & _ & Hother).
  apply Hother; reflexivity.
Defined.

(** C8 fails as stated: a successful (HTTP-ok) response whose body is not
    JSON makes [res.json()] reject, and the fetcher fails although the
    status is a success. *)
Lemma fetchHour_fails_on_undecodable_body :
  ok {| ok := true; status := 200; json := None |} = true
  ∧ fetchHour (λ _, Some {| ok := true; status := 200; json := None |}) "07"
    = Rejected SyntaxError.
Proof. split; reflexivity. Qed.

(** ** Arrays of point lists *)

Lemma Array_from_empty_length (n : nat) : length (Array_from_empty n) = n.
Proof. apply length_replicate. Qed.

Lemma Array_from_empty_lookup (n i : nat) :
  (i < n)%nat → Array_from_empty n !! i = Some (Some []).
Proof. intros. by apply lookup_replicate_2. Qed.

Lemma dense_Forall (arr : slots) : dense arr = true ↔ Forall is_Some arr.
Proof.
  unfold dense. rewrite forallb_forall, Forall_forall.
  split; intros H x Hx.
  - apply list_elem_of_In, H in Hx. by apply bool_decide_eq_true in Hx.
  - apply bool_decide_eq_true, H. by apply list_elem_of_In.
Qed.

Lemma Array_from_empty_dense (n : nat) : dense (Array_from_empty n) = true.
Proof. apply dense_Forall, Forall_replicate. eauto. Qed.

Lemma array_set_in_range (idx : nat) (points : list Point) (arr : slots) :
  (idx < length arr)%nat → array_set idx points arr = <[idx := Some points]> arr.
Proof. unfold array_set. intros H. by destruct (Nat.ltb_spec idx (length arr)); [|lia]. Qed.

Lemma array_set_length (idx : nat) (points : list Point) (arr : slots) :
  (idx < length arr)%nat → length (array_set idx points arr) = length arr.
Proof. intros H. by rewrite array_set_in_range, length_insert. Qed.

Lemma array_set_dense (idx : nat) (points : list Point) (arr : slots) :
  (idx < length arr)%nat → dense arr = true → dense (array_set idx points arr) = true.
Proof.
  intros H. rewrite array_set_in_range, !dense_Forall by done.
  intros Hall. apply Forall_insert; eauto.
Qed.

(** Written past the end, the array grows and the gap stays undefined. *)
Example array_set_past_the_end :
  array_set 3 [] [Some []] = [Some []; None; None; Some []].
Proof. reflexivity. Qed.

(** ** The progressive hook *)

Module ProgressiveFacts.
Import Progressive.

Section Cycle.
Variable fetched : nat → settlement (list Point).

Lemma run_app (tr1 tr2 : list event) (h : hook) :
  run fetched (tr1 ++ tr2) h = run fetched tr2 (run fetched tr1 h).
Proof. apply fold_left_app. Qed.

Lemma run_cons (e : event) (tr : list event) (h : hook) :
  run fetched (e :: tr) h = run fetched tr (step fetched h e).
Proof. reflexivity. Qed.

(** *** Cancellation *)

(** Every callback returns before its first setter call once the flag
    is set, and the counter is left alone. *)
Lemma handle_cancelled (e : event) (c : closure) :
  cancelled c = true → handle fetched e c = (c, []).
Proof.
  intros Hc. destruct c as [cn cp]. simpl in Hc. subst cn.
  destruct e as [idx|idx|]; simpl; try done.
  by destruct (fetched idx).
Qed.

Lemma step_cancelled (e : event) (h : hook) :
  cancelled (env h) = true → step fetched h e = h.
Proof.
  intros Hc. unfold step. rewrite handle_cancelled by done.
  destruct h. simpl. by rewrite app_nil_r.
Qed.

Lemma run_cancelled (tr : list event) (h : hook) :
  cancelled (env h) = true → run fetched tr h = h.
Proof.
  induction tr as [|e tr IH]; [done|]. intros Hc.
  by rewrite run_cons, step_cancelled, IH.
Qed.

Lemma emitted_cancelled (tr : list event) (c : closure) :
  cancelled c = true → emitted fetched tr c = [].
Proof.
  induction tr as [|e tr IH]; [done|]. intros Hc.
  simpl. rewrite handle_cancelled by done. simpl. by apply IH.
Qed.

Lemma step_Cleanup (h : hook) :
  state (step fetched h Cleanup) = state h
  ∧ calls (step fetched h Cleanup) = calls h
  ∧ completed (env (step fetched h Cleanup)) = completed (env h)
  ∧ cancelled (env (step fetched h Cleanup)) = true.
Proof. unfold step. simpl. by rewrite app_nil_r. Qed.
End Cycle.
End ProgressiveFacts.

(** C7: once the cleanup of the effect has set the cancelled flag, whatever
    happens afterwards (first callbacks of resolved or rejected fetches,
    [.finally] callbacks, in any number and order) makes no setter call:
    [byHour], [progress], [loading] and [error] keep the values they had
    when the hook was cancelled, and so does the completion counter, since
    each callback that updates state returns first when the flag is set. *)
Theorem cancelled_hook_is_frozen
    (fetched : nat → settlement (list Point))
    (h : Progressive.hook) (before after : list Progressive.event) :
  let at_cancel :=
    Progressive.run fetched (before ++ [Progressive.Cleanup]) h in
  Progressive.emitted fetched after (Progressive.env at_cancel) = []
  ∧ Progressive.run fetched (before ++ Progressive.Cleanup :: after) h = at_cancel
  ∧ Progressive.state at_cancel = Progressive.state (Progressive.run fetched before h)
  ∧ Progressive.calls at_cancel = Progressive.calls (Progressive.run fetched before h)
  ∧ (∀ e, Progressive.handle fetched e (Progressive.env at_cancel)
          = (Progressive.env at_cancel, [])).
Proof.
  intros at_cancel. subst at_cancel.
  rewrite !ProgressiveFacts.run_app.
  set (h1 := Progressive.run fetched before h).
  change (Progressive.run fetched [Progressive.Cleanup] h1)
    with (Progressive.step fetched h1 Progressive.Cleanup).
  rewrite ProgressiveFacts.run_cons.
  destruct (ProgressiveFacts.step_Cleanup fetched h1) as (Hs & Hc & _ & Hflag).
  split; [by apply ProgressiveFacts.emitted_cancelled|].
  split; [by apply ProgressiveFacts.run_cancelled|].
  split; [done|]. split; [done|].
  intros e. by apply ProgressiveFacts.handle_cancelled.
Qed.

(** ** The shape of [byHour] *)

Module ShapeFacts.
Import Progressive.

Section Cycle.
Variable fetched : nat → settlement (list Point).

(** What one event does to [byHour]. *)
Lemma step_byHour (e : event) (h : hook) :
  byHour (state (step fetched h e)) =
    match e with
    | Settle idx =>
        match fetched idx with
        | Resolved points =>
            if cancelled (env h) then byHour (state h)
            else array_set idx points (byHour (state h))
        | Rejected _ => byHour (state h)
        end
    | _ => byHour (state h)
    end.
Proof.
  unfold step. destruct e as [idx|idx|]; simpl.
  - destruct (fetched idx); simpl; [|done].
    unfold then_cb. by destruct (cancelled (env h)).
  - unfold finally_cb. destruct (cancelled (env h)); [done|]. simpl.
    by destruct (PrimFloat.eqb _ _).
  - done.
Qed.

Lemma step_full (e : event) (h : hook) :
  dispatched (length HOURS) [e] = true →
  full (byHour (state h)) → full (byHour (state (step fetched h e))).
Proof.
  intros He [Hlen Hdense]. rewrite step_byHour.
  destruct e as [idx|idx|]; try done.
  destruct (fetched idx) as [points|]; [|done].
  destruct (cancelled (env h)); [done|].
  simpl in He. rewrite andb_true_r in He. apply Nat.ltb_lt in He.
  split.
  - rewrite array_set_length; [done|]. by rewrite Hlen.
  - apply array_set_dense; [|done]. by rewrite Hlen.
Qed.

Lemma run_full (tr : list event) (h : hook) :
  dispatched (length HOURS) tr = true →
  full (byHour (state h)) → full (byHour (state (run fetched tr h))).
Proof.
  revert h. induction tr as [|e tr IH]; intros h Htr Hfull; [done|].
  simpl in Htr. apply andb_true_iff in Htr as [He Htr].
  apply IH; [done|]. apply step_full; [|done].
  simpl. by rewrite He.
Qed.

Lemma start_full (s : HookState) : full (byHour (state (effect_start s))).
Proof.
  split; [apply Array_from_empty_length|apply Array_from_empty_dense].
Qed.
End Cycle.


(** The batch hook holds either the initial empty array or the complete
    result of [Promise.all]. *)
Lemma batch_byHour (fetched : nat → settlement (list Point))
    (tr : list Batch.event) (h : Batch.hook) :
  byHour (Batch.state (Batch.run fetched tr h)) = byHour (Batch.state h)
  ∨ byHour (Batch.state (Batch.run fetched tr h)) = Batch.all fetched.
Proof.
  revert h. induction tr as [|e tr IH]; intros h; [by left|].
  change (Batch.run fetched (e :: tr) h)
    with (Batch.run fetched tr (Batch.step fetched h e)).
  destruct (IH (Batch.step fetched h e)) as [-> | ->]; [|by right].
  unfold Batch.step. destruct e; simpl; [|by left].
  destruct (Batch.cancelled h); simpl; [by left|by right].
Qed.



Lemma batch_all_full (fetched : nat → settlement (list Point)) :
  full (Batch.all fetched).
Proof.
  split.
  - unfold Batch.all. by rewrite length_map, length_seq.
  - apply dense_Forall, Forall_fmap, Forall_forall. intros idx _. simpl. eauto.
Qed.
End ShapeFacts.




(** ** Complete cycles of the progressive hook *)

Module CycleFacts.
Import Progressive.

(** *** Counting the settled chains *)

Lemma below_cons (k : nat) (e : event) (tr : list event) :
  below k (e :: tr) =
    if match slot_of e with Some idx => (idx <? k)%nat | None => false end
    then e :: below k tr else below k tr.
Proof. reflexivity. Qed.

Lemma chain_cons (k : nat) (e : event) (tr : list event) :
  chain k (e :: tr) =
    if decide (slot_of e = Some k) then e :: chain k tr else chain k tr.
Proof. unfold chain. by rewrite filter_cons. Qed.

Lemma finallies_below_0 (tr : list event) : finallies (below 0 tr) = 0%nat.
Proof.
  induction tr as [|e tr IH]; [done|].
  rewrite below_cons. by destruct (slot_of e).
Qed.

Lemma finallies_below_S (k : nat) (tr : list event) :
  finallies (below (S k) tr) = (finallies (below k tr) + finallies (chain k tr))%nat.
Proof.
  induction tr as [|e tr IH]; [done|].
  rewrite !below_cons, chain_cons.
  destruct e as [idx|idx|]; cbn [slot_of]; [| |by case_decide].
  all: destruct (Nat.ltb_spec idx (S k)), (Nat.ltb_spec idx k);
    case_decide as Hd; try injection Hd as Hd; cbn [finallies]; try lia;
    exfalso; apply Hd; f_equal; lia.
Qed.

Lemma finallies_below (k : nat) (tr : list event) :
  (∀ idx, (idx < k)%nat → chain idx tr = [Settle idx; Finally idx]) →
  finallies (below k tr) = k.
Proof.
  induction k as [|k IH]; intros Hch; [apply finallies_below_0|].
  rewrite finallies_below_S, IH, (Hch k) by eauto with lia. simpl. lia.
Qed.

Lemma below_all (n : nat) (tr : list event) :
  live tr = true → dispatched n tr = true → below n tr = tr.
Proof.
  induction tr as [|e tr IH]; [done|]. simpl.
  intros [He Hlive]%andb_true_iff [Hn Htr]%andb_true_iff.
  destruct (slot_of e) as [idx|]; [|by apply bool_decide_eq_true, is_Some_None in He].
  rewrite Hn. f_equal. by apply IH.
Qed.

(** The three parts of [complete_cycle]. *)
Lemma complete_cycle_parts (tr : list event) :
  complete_cycle tr = true →
  live tr = true
  ∧ dispatched (length HOURS) tr = true
  ∧ ∀ idx, (idx < length HOURS)%nat → chain idx tr = [Settle idx; Finally idx].
Proof.
  unfold complete_cycle.
  intros [[Hlive Hdisp]%andb_true_iff Hch]%andb_true_iff.
  split; [done|]. split; [done|]. intros idx Hidx.
  rewrite forallb_forall in Hch.
  eapply bool_decide_eq_true_1, Hch, in_seq. lia.
Qed.

Lemma complete_cycle_finallies (tr : list event) :
  complete_cycle tr = true → finallies tr = length HOURS.
Proof.
  intros (Hlive & Hdisp & Hch)%complete_cycle_parts.
  rewrite <- (below_all (length HOURS) tr) at 1 by done.
  by apply finallies_below.
Qed.

Lemma complete_cycle_settles (tr : list event) (idx : nat) :
  complete_cycle tr = true → (idx < length HOURS)%nat → Settle idx ∈ tr.
Proof.
  intros (_ & _ & Hch)%complete_cycle_parts Hidx.
  assert (H : Settle idx ∈ chain idx tr) by (rewrite Hch by done; left).
  by apply list_elem_of_filter in H as [_ H].
Qed.

Lemma in_order_complete : complete_cycle in_order = true.
Proof. vm_compute. reflexivity. Qed.

End CycleFacts.

(** ** What a running cycle does to the state *)

Module RunFacts.
Import Progressive.

Section Cycle.
Variable fetched : nat → settlement (list Point).

(** *** The closure *)

Lemma step_env (e : event) (h : hook) :
  env (step fetched h e) =
    match e with
    | Settle _ => env h
    | Finally _ =>
        if cancelled (env h) then env h
        else {| cancelled := false; completed := (completed (env h) + 1)%float |}
    | Cleanup => {| cancelled := true; completed := completed (env h) |}
    end.
Proof.
  unfold Progressive.step. destruct e as [idx|idx|]; simpl; [| |done].
  - destruct (fetched idx); simpl; [|done].
    unfold then_cb. by destruct (cancelled (env h)).
  - unfold finally_cb. by destruct (cancelled (env h)) eqn:Hc; simpl; rewrite ?Hc.
Qed.

Lemma run_env (tr : list event) (h : hook) :
  live tr = true → cancelled (env h) = false →
  cancelled (env (run fetched tr h)) = false
  ∧ completed (env (run fetched tr h))
    = Nat.iter (finallies tr) (λ x, (x + 1)%float) (completed (env h)).
Proof.
  revert h. induction tr as [|e tr IH]; intros h Hlive Hc; [done|].
  simpl in Hlive. apply andb_true_iff in Hlive as [He Hlive].
  rewrite ProgressiveFacts.run_cons.
  destruct e as [idx|idx|]; [| |done].
  - destruct (IH (step fetched h (Settle idx))) as [-> ->];
      rewrite ?step_env; done.
  - destruct (IH (step fetched h (Finally idx))) as [-> ->];
      rewrite ?step_env, ?Hc; try done.
    split; [done|]. cbn [finallies completed]. by rewrite Nat.iter_succ_r.
Qed.

(** *** [error], [progress] and [loading] *)

Lemma step_error (e : event) (h : hook) : error (state (step fetched h e)) = error (state h).
Proof.
  unfold Progressive.step. destruct e as [idx|idx|]; simpl; [| |done].
  - destruct (fetched idx); simpl; [|done].
    unfold then_cb. by destruct (cancelled (env h)).
  - unfold finally_cb. destruct (cancelled (env h)); [done|]. simpl.
    by destruct (PrimFloat.eqb _ _).
Qed.

Lemma run_error (tr : list event) (h : hook) :
  error (state (run fetched tr h)) = error (state h).
Proof.
  revert h. induction tr as [|e tr IH]; intros h; [done|].
  by rewrite ProgressiveFacts.run_cons, IH, step_error.
Qed.

Lemma step_in_step (e : event) (h : hook) : in_step h → in_step (step fetched h e).
Proof.
  intros [Hp Hl]. unfold in_step. rewrite step_env.
  unfold Progressive.step. destruct e as [idx|idx|]; simpl; [| |done].
  - destruct (fetched idx); simpl; [|done].
    unfold then_cb. by destruct (cancelled (env h)).
  - unfold finally_cb. destruct (cancelled (env h)); [done|]. simpl.
    destruct (PrimFloat.eqb (_ + 1) _); simpl; by split.
Qed.

Lemma run_in_step (tr : list event) (h : hook) : in_step h → in_step (run fetched tr h).
Proof.
  revert h. induction tr as [|e tr IH]; intros h Hh; [done|].
  rewrite ProgressiveFacts.run_cons. by apply IH, step_in_step.
Qed.

Lemma start_in_step (s : HookState) : in_step (effect_start s).
Proof. split; [reflexivity|discriminate]. Qed.

(** *** The slots *)

(** Slot [i] holds the points of hour [i] once its fetch has resolved and
    its first callback has run, and is untouched otherwise. *)
Lemma run_lookup (tr : list event) (h : hook) (i : nat) :
  live tr = true →
  dispatched (length (byHour (state h))) tr = true →
  cancelled (env h) = false →
  byHour (state (run fetched tr h)) !! i =
    if bool_decide (Settle i ∈ tr) then
      match fetched i with
      | Resolved points => Some (Some points)
      | Rejected _ => byHour (state h) !! i
      end
    else byHour (state h) !! i.
Proof.
  revert h. induction tr as [|e tr IH]; intros h Hlive Hdisp Hc.
  { by rewrite bool_decide_eq_false_2 by apply not_elem_of_nil. }
  simpl in Hlive, Hdisp.
  apply andb_true_iff in Hlive as [He Hlive].
  apply andb_true_iff in Hdisp as [Hidx Hdisp].
  rewrite ProgressiveFacts.run_cons.
  assert (Hlen : length (byHour (state (step fetched h e))) = length (byHour (state h))).
  { rewrite ShapeFacts.step_byHour. destruct e as [idx|idx|]; try done.
    destruct (fetched idx); [|done]. rewrite Hc.
    apply array_set_length. by apply Nat.ltb_lt. }
  assert (Hc' : cancelled (env (step fetched h e)) = false).
  { rewrite step_env. destruct e; try done. by rewrite Hc. }
  rewrite IH by (by rewrite ?Hlen). clear IH.
  rewrite ShapeFacts.step_byHour.
  destruct e as [idx|idx|]; [| |done].
  - simpl in Hidx. apply Nat.ltb_lt in Hidx. rewrite Hc.
    destruct (decide (i = idx)) as [->|Hne].
    + rewrite (bool_decide_eq_true_2 (Settle idx ∈ Settle idx :: tr)) by left.
      destruct (fetched idx) as [points|err] eqn:Hf.
      * rewrite array_set_in_range, list_lookup_insert_eq by done.
        by destruct (bool_decide (Settle idx ∈ tr)).
      * by destruct (bool_decide (Settle idx ∈ tr)).
    + assert (Hmem : Settle i ∈ Settle idx :: tr ↔ Settle i ∈ tr).
      { rewrite elem_of_cons. split; [intros [[=]|]; [lia|done]|by right]. }
      rewrite (bool_decide_ext _ _ Hmem).
      assert (Hsame : ∀ arr : slots,
                 (idx < length arr)%nat →
                 match fetched idx with
                 | Resolved points => array_set idx points arr
                 | Rejected _ => arr
                 end !! i = arr !! i).
      { intros arr Hlt. destruct (fetched idx); [|done].
        by rewrite array_set_in_range, list_lookup_insert_ne. }
      by rewrite Hsame.
  - assert (Hmem : Settle i ∈ Finally idx :: tr ↔ Settle i ∈ tr).
    { rewrite elem_of_cons. split; [intros [[=]|]; done|by right]. }
    by rewrite (bool_decide_ext _ _ Hmem).
Qed.

(** *** The end of a complete cycle *)

Lemma complete_cycle_end (tr : list event) :
  complete_cycle tr = true →
  let h := run fetched tr (effect_start mount) in
  cancelled (env h) = false
  ∧ completed (env h) = 24%float
  ∧ progress (state h) = 1%float
  ∧ loading (state h) = false
  ∧ error (state h) = ""
  ∧ byHour (state h)
    = map (λ idx, Some (points_or_empty (fetched idx))) (seq 0 24).
Proof.
  intros Hcc h. subst h.
  pose proof (CycleFacts.complete_cycle_finallies tr Hcc) as Hfin.
  destruct (CycleFacts.complete_cycle_parts tr Hcc) as (Hlive & Hdisp & _).
  destruct (run_env tr (effect_start mount) Hlive eq_refl) as [Hc Hcount].
  rewrite Hfin in Hcount.
  assert (Hdone : completed (env (run fetched tr (effect_start mount))) = 24%float)
    by (rewrite Hcount; reflexivity).
  destruct (run_in_step tr (effect_start mount) (start_in_step mount)) as [Hp Hl].
  rewrite Hdone in Hp, Hl.
  split; [done|]. split; [done|].
  split; [by rewrite Hp|].
  split; [by apply Hl|].
  split; [by rewrite run_error|].
  apply list_eq. intros i.
  rewrite run_lookup by done.
  destruct (decide (i < 24)%nat) as [Hlt|Hge].
  - rewrite bool_decide_eq_true_2 by (by apply CycleFacts.complete_cycle_settles).
    rewrite list_lookup_fmap, lookup_seq_lt by done. simpl.
    destruct (fetched i); [done|]. by apply Array_from_empty_lookup.
  - rewrite list_lookup_fmap, lookup_seq_ge by lia. simpl.
    rewrite bool_decide_eq_false_2.
    + apply lookup_ge_None_2. rewrite Array_from_empty_length. lia.
    + intros Hin. unfold dispatched in Hdisp. rewrite forallb_forall in Hdisp.
      apply list_elem_of_In, Hdisp in Hin. simpl in Hin.
      apply Nat.ltb_lt in Hin. lia.
Qed.

End Cycle.
End RunFacts.

(** C3: whichever of the 24 hourly fetches fail (none, some or all), every
    complete cycle of the progressive hook, in any settlement order, ends
    with the completion counter at 24, [progress] at 1.0, [loading] off and
    [error] empty; [byHour] has 24 entries, the entry of a failed hour is
    the empty list and the entry of a successful hour is its fetched list
    of Points. *)
Theorem cycle_completes_despite_failures
    (fetched : nat → settlement (list Point)) (tr : list Progressive.event) :
  Progressive.complete_cycle tr = true →
  let h := Progressive.run fetched tr (Progressive.effect_start Progressive.mount) in
  Progressive.completed (Progressive.env h) = 24%float
  ∧ progress (Progressive.state h) = 1%float
  ∧ loading (Progressive.state h) = false
  ∧ error (Progressive.state h) = ""
  ∧ length (byHour (Progressive.state h)) = 24%nat
  ∧ ∀ idx, (idx < 24)%nat →
      byHour (Progressive.state h) !! idx
      = Some (Some match fetched idx with
                   | Resolved points => points
                   | Rejected _ => []
                   end).
Proof.
  intros Hcc h.
  destruct (RunFacts.complete_cycle_end fetched tr Hcc)
    as (_ & Hdone & Hp & Hl & He & Hby).
  fold h in Hdone, Hp, Hl, He, Hby.
  split; [done|]. split; [done|]. split; [done|]. split; [done|].
  rewrite Hby. split; [by rewrite length_map, length_seq|].
  intros idx Hidx. by rewrite list_lookup_fmap, lookup_seq_lt.
Qed.

Lemma cycle_completes_despite_failures_witness :
  let fetched (idx : nat) :=
    if (idx =? 7)%nat then Rejected (HttpError "07" 500)
    else Resolved [ {| lat := 45; lon := (-122); alt_km := None |} ] in
  let tr := map Progressive.Settle (rev (seq 0 24))
            ++ map Progressive.Finally (seq 0 24) in
  let h := Progressive.run fetched tr
             (Progressive.effect_start Progressive.mount) in
  progress (Progressive.state h) = 1%float
  ∧ loading (Progressive.state h) = false
  ∧ byHour (Progressive.state h) !! 7%nat = Some (Some []).
Proof.
  intros fetched tr h.
  destruct (cycle_completes_despite_failures fetched tr)
    as (_ & Hp & Hl & _ & _ & Hby); [vm_compute; reflexivity|].
  split; [exact Hp|]. split; [exact Hl|]. apply (Hby 7%nat). lia.
Defined.

(** C10: for every assignment of outcomes to the 24 hours, the batch hook
    (after [Promise.all] has resolved) and the progressive hook (after any
    complete cycle), neither cancelled, hold the same [byHour]: 24 entries,
    where entry [i] is the point list of hour [i] when its fetch succeeded
    and the empty list when it failed. *)
Theorem variants_agree_on_byHour
    (fetched : nat → settlement (list Point)) (tr : list Progressive.event) :
  Progressive.complete_cycle tr = true →
  byHour (Progressive.state
            (Progressive.run fetched tr (Progressive.effect_start Progressive.mount)))
  = byHour (Batch.state
              (Batch.run fetched [Batch.AllSettled] (Batch.effect_start Batch.mount)))
  ∧ byHour (Batch.state
              (Batch.run fetched [Batch.AllSettled] (Batch.effect_start Batch.mount)))
    = map (λ idx, Some match fetched idx with
                       | Resolved points => points
                       | Rejected _ => []
                       end) (seq 0 24).
Proof.
  intros Hcc.
  destruct (RunFacts.complete_cycle_end fetched tr Hcc) as (_ & _ & _ & _ & _ & Hby).
  by rewrite Hby.
Qed.

Lemma variants_agree_on_byHour_witness :
  let fetched (idx : nat) :=
    if (idx =? 7)%nat then Rejected NetworkError
    else Resolved [ {| lat := 0; lon := 0; alt_km := Some 12%float |} ] in
  byHour (Progressive.state
            (Progressive.run fetched Progressive.in_order
               (Progressive.effect_start Progressive.mount)))
  = byHour (Batch.state
              (Batch.run fetched [Batch.AllSettled] (Batch.effect_start Batch.mount))).
Proof.
  intros fetched.
  apply (variants_agree_on_byHour fetched Progressive.in_order).
  vm_compute. reflexivity.
Defined.

(** ** Stored points *)

Module StoredFacts.
Import Progressive.

(** The setter calls recorded by the hook are those its callbacks emit. *)
Lemma run_calls (fetched : nat → settlement (list Point))
    (tr : list event) (h : hook) :
  calls (run fetched tr h) = calls h ++ emitted fetched tr (env h).
Proof.
  revert h. induction tr as [|e tr IH]; intros h; simpl; [by rewrite app_nil_r|].
  rewrite IH. unfold step. destruct (handle fetched e (env h)) as [c us]. simpl.
  by rewrite app_assoc.
Qed.

Lemma all_valid_start : all_valid (Array_from_empty (length HOURS)).
Proof. apply Forall_replicate. constructor. Qed.

(** When every fetched list holds valid Points, so does every list the
    hook stores, at any moment of any cycle. *)
Lemma run_all_valid (fetched : nat → settlement (list Point))
    (tr : list event) (h : hook) :
  (∀ idx points, fetched idx = Resolved points →
                 Forall (λ p, valid_point p = true) points) →
  dispatched (length (byHour (state h))) tr = true →
  all_valid (byHour (state h)) →
  all_valid (byHour (state (run fetched tr h))).
Proof.
  intros Hfetched. revert h.
  induction tr as [|e tr IH]; intros h Hdisp Hvalid; [done|].
  simpl in Hdisp. apply andb_true_iff in Hdisp as [He Hdisp].
  rewrite ProgressiveFacts.run_cons.
  assert (Hstep : all_valid (byHour (state (step fetched h e)))
                  ∧ length (byHour (state (step fetched h e)))
                    = length (byHour (state h))).
  { rewrite ShapeFacts.step_byHour. destruct e as [idx|idx|]; try done.
    destruct (fetched idx) as [points|] eqn:Hf; [|done].
    destruct (cancelled (env h)); [done|].
    simpl in He. apply Nat.ltb_lt in He.
    rewrite array_set_in_range by done. split; [|apply length_insert].
    apply Forall_insert; [done|]. by apply (Hfetched idx). }
  destruct Hstep as [Hv Hlen]. apply IH; [by rewrite Hlen|done].
Qed.

(** In particular for the snapshots fetched from decoded bodies. *)
Lemma stored_points_valid (net : string → option Response) (tr : list event) :
  (∀ url res data, net url = Some res → json res = Some data → decoded data = true) →
  dispatched (length HOURS) tr = true →
  all_valid (byHour (state (run (hourly net) tr (effect_start mount)))).
Proof.
  intros Hdec Hdisp. apply run_all_valid.
  - intros idx points. by apply fetchHour_valid.
  - done.
  - apply all_valid_start.
Qed.

End StoredFacts.

(** ** The caching proxy *)

Module ProxyFacts.
Import Proxy.

Lemma relays_built (up : Upstream) (ct : string) :
  ct = default "application/json" (up_headers up !! "content-type") →
  relays up
    (send (up_body up)
      (setHeader "CDN-Cache-Control" cc
      (setHeader "Cache-Control" cc
      (setHeader "Access-Control-Allow-Origin" "*"
      (setHeader "Content-Type" ct
      (set_status (up_status up) fresh)))))).
Proof. intros ->. repeat split. Qed.

End ProxyFacts.

(** C9 fails as stated: the path-based proxy answers an [OPTIONS] request
    with 204 and the three CORS headers without calling the upstream, so
    neither the upstream's status nor the cache headers appear. *)
Lemma preflight_is_not_relayed :
  let up := {| Proxy.up_status := 500; Proxy.up_headers := ∅; Proxy.up_body := [] |} in
  let req := {| Proxy.method := "OPTIONS"; Proxy.query := ∅ |} in
  ∃ res, Proxy.path_handler (λ _, Some up) req = Some res
         ∧ Proxy.statusCode res = 204%Z
         ∧ Proxy.statusCode res ≠ Proxy.up_status up
         ∧ Proxy.headers res !! "Cache-Control" = None
         ∧ ¬ Proxy.relays up res.
Proof.
  intros up req. eexists. split; [reflexivity|].
  split; [reflexivity|]. split; [discriminate|]. split; [reflexivity|].
  intros (Hstatus & _). discriminate.
Qed.

(** C9 (amended): for every inbound request that a proxy variant forwards
    and the upstream answers (every request to the query-based variant,
    every request other than [OPTIONS] to the path-based variant), the
    response has exactly the upstream's status code, Content-Type set to
    the upstream's content-type or to application/json when the upstream
    has none, Access-Control-Allow-Origin set to the wildcard, Cache-Control and
    CDN-Cache-Control set to max-age=0, s-maxage=60,
    stale-while-revalidate=300, and the upstream's body. An [OPTIONS]
    request to the path-based variant is answered with 204, the three CORS
    headers and no body, without an upstream call. *)
Theorem proxies_relay_upstream
    (origin : string → option Proxy.Upstream)
    (encodeURIComponent : string → string) (req : Proxy.Request) :
  (∀ up, Proxy.method req ≠ "OPTIONS" →
         origin (Proxy.path_target req) = Some up →
         ∃ res, Proxy.path_handler origin req = Some res
                ∧ Proxy.relays up res
                ∧ Proxy.sent res = Some (Proxy.up_body up))
  ∧ (∀ up, origin (Proxy.file_target encodeURIComponent req) = Some up →
           ∃ res, Proxy.file_handler origin encodeURIComponent req = Some res
                  ∧ Proxy.relays up res
                  ∧ Proxy.sent res = Some (Proxy.up_body up))
  ∧ (Proxy.method req = "OPTIONS" →
       Proxy.path_handler origin req
       = Some {| Proxy.statusCode := 204;
                 Proxy.headers :=
                   {[ "Access-Control-Allow-Headers" := "Content-Type";
                      "Access-Control-Allow-Methods" := "GET, OPTIONS";
                      "Access-Control-Allow-Origin" := "*" ]};
                 Proxy.sent := None |}).
Proof.
  split; [|split].
  - intros up Hm Hup. unfold Proxy.path_handler.
    rewrite (proj2 (String.eqb_neq _ _) Hm), Hup.
    eexists. split; [reflexivity|]. split; [|done].
    by apply ProxyFacts.relays_built.
  - intros up Hup. unfold Proxy.file_handler. rewrite Hup.
    eexists. split; [reflexivity|]. split; [|done].
    by apply ProxyFacts.relays_built.
  - intros Hm. unfold Proxy.path_handler.
    rewrite (proj2 (String.eqb_eq _ _) Hm).
    unfold Proxy.set_status, Proxy.setHeader, Proxy.fresh. simpl.
    by rewrite insert_empty.
Qed.

Lemma proxies_relay_upstream_witness :
  let up := {| Proxy.up_status := 503;
               Proxy.up_headers := {[ "content-type" := "text/html" ]};
               Proxy.up_body := [] |} in
  let req := {| Proxy.method := "GET";
                Proxy.query := {[ "path" := Proxy.Many ["treasure"; "07.json"] ]} |} in
  ∃ res, Proxy.path_handler (λ _, Some up) req = Some res
         ∧ Proxy.statusCode res = 503%Z
         ∧ Proxy.headers res !! "Content-Type" = Some "text/html".
Proof.
  intros up req.
  destruct (proxies_relay_upstream (λ _, Some up) (λ s, s) req) as [Hpath _].
  destruct (Hpath up) as (res & Hres & (Hstatus & Hct & _) & _);
    [discriminate|reflexivity|].
  exists res. split; [exact Hres|]. split; [exact Hstatus|exact Hct].
Defined.

(** ** Points in the model *)

Lemma batch_all_valid (fetched : nat → settlement (list Point))
    (btr : list Batch.event) :
  (∀ idx points, fetched idx = Resolved points →
                 Forall (λ p, valid_point p = true) points) →
  all_valid (byHour (Batch.state (Batch.run fetched btr (Batch.effect_start Batch.mount)))).
Proof.
  intros Hfetched.
  destruct (ShapeFacts.batch_byHour fetched btr (Batch.effect_start Batch.mount))
    as [-> | ->]; [constructor|].
  apply Forall_fmap, Forall_forall. intros idx _. simpl.
  destruct (fetched idx) as [points|] eqn:Hf; [by apply (Hfetched idx)|constructor].
Qed.

(** C4 (amended): every Point the row validator produces from a raw row
    whose latitude and longitude are not NaN satisfies the range
    constraints: latitude in [-90, 90], longitude in [-180, 180] and
    altitude, when present, in [0, 40]; infinite latitudes and longitudes
    are rejected and a NaN or infinite altitude is dropped. A decoded JSON
    body holds no NaN, so every Point stored in a per-slot list of either
    hook, at any moment of a cycle, satisfies the constraints. *)
Theorem model_points_in_range
    (net : string → option Response)
    (tr : list Progressive.event) (btr : list Batch.event) :
  (∀ url res data, net url = Some res → json res = Some data → decoded data = true) →
  Progressive.dispatched 24 tr = true →
  all_valid (byHour (Progressive.state
                       (Progressive.run (hourly net) tr
                          (Progressive.effect_start Progressive.mount))))
  ∧ all_valid (byHour (Batch.state
                         (Batch.run (hourly net) btr (Batch.effect_start Batch.mount))))
  ∧ (∀ row p, parseRow row = Some p →
              PrimFloat.is_nan (lat p) = false →
              PrimFloat.is_nan (lon p) = false →
              valid_point p = true)
  ∧ (∀ row p a, parseRow row = Some p → alt_km p = Some a →
                Num.within 0 40 a = true).
Proof.
  intros Hdec Hdisp.
  split; [by apply StoredFacts.stored_points_valid|].
  split; [apply batch_all_valid; intros idx points; by apply fetchHour_valid|].
  split; [apply parseRow_valid_point|apply parseRow_altitude_range].
Qed.

Lemma model_points_in_range_witness :
  let body := VArray [ VArray [VNumber 45; VNumber (-122); VNumber 99];
                       VArray [VNumber infinity; VNumber 0];
                       VArray [VNumber 200; VNumber 0];
                       VArray [VNumber (-90); VNumber 180; VNumber infinity] ] in
  let net (url : string) := Some {| ok := true; status := 200; json := Some body |} in
  all_valid (byHour (Progressive.state
                       (Progressive.run (hourly net) Progressive.in_order
                          (Progressive.effect_start Progressive.mount)))).
Proof.
  intros body net.
  apply (model_points_in_range net Progressive.in_order []).
  - intros url res data [= <-] [= <-]. reflexivity.
  - reflexivity.
Defined.

(** * Further properties *)

(** ** Binary64 numbers that are not NaN are totally ordered *)

Section FloatTotalOrder.

Lemma SFleb_trans (x y z : spec_float) :
  SFleb x y = true → SFleb y z = true → SFleb x z = true.
Proof.
  unfold SFleb.
  destruct x as [[]|[]| |[] mx ex], y as [[]|[]| |[] my ey], z as [[]|[]| |[] mz ez];
    simpl; try done.
  all: fold (Pos.compare mx my); fold (Pos.compare my mz); fold (Pos.compare mx mz).
  all: destruct (Z.compare_spec ex ey), (Z.compare_spec ey ez), (Z.compare_spec ex ez);
    try done; try lia.
  all: destruct (Pos.compare_spec mx my), (Pos.compare_spec my mz),
         (Pos.compare_spec mx mz); simpl; try done; try lia.
Qed.

Lemma leb_trans (x y z : float) :
  PrimFloat.leb x y = true → PrimFloat.leb y z = true → PrimFloat.leb x z = true.
Proof. rewrite !leb_spec. apply SFleb_trans. Qed.

Lemma is_nan_false (x : float) :
  PrimFloat.is_nan x = false ↔ SFeqb (Prim2SF x) (Prim2SF x) = true.
Proof.
  unfold PrimFloat.is_nan. by rewrite FloatAxioms.eqb_spec, Bool.negb_false_iff.
Qed.

Lemma leb_refl (x : float) : PrimFloat.is_nan x = false → PrimFloat.leb x x = true.
Proof.
  rewrite is_nan_false, leb_spec. unfold SFeqb, SFleb.
  by destruct (SFcompare (Prim2SF x) (Prim2SF x)) as [[]|].
Qed.

Lemma ltb_leb (x y : float) : PrimFloat.ltb x y = true → PrimFloat.leb x y = true.
Proof.
  rewrite ltb_spec, leb_spec. unfold SFltb, SFleb.
  by destruct (SFcompare (Prim2SF x) (Prim2SF y)) as [[]|].
Qed.

Lemma SFeqb_refl (x : spec_float) : x ≠ S754_nan → SFeqb x x = true.
Proof.
  unfold SFeqb. destruct x as [[]|[]| |[] mx ex]; simpl; try done.
  all: rewrite Z.compare_refl; fold (Pos.compare mx mx); by rewrite Pos.compare_refl.
Qed.

Lemma leb_not_nan (x y : float) :
  PrimFloat.leb x y = true →
  PrimFloat.is_nan x = false ∧ PrimFloat.is_nan y = false.
Proof.
  rewrite !is_nan_false, leb_spec. intros H.
  split; apply SFeqb_refl; intros E; rewrite E in H; [done|].
  by destruct (Prim2SF x) as [[]|[]| |[] mx ex].
Qed.

Lemma leb_antisym (x y : float) :
  PrimFloat.leb x y = true → PrimFloat.leb y x = true → PrimFloat.eqb x y = true.
Proof.
  rewrite !leb_spec, FloatAxioms.eqb_spec. unfold SFleb, SFeqb.
  rewrite (SFcompare_antisym (Prim2SF x) (Prim2SF y)).
  by destruct (SFcompare (Prim2SF x) (Prim2SF y)) as [[]|].
Qed.

Lemma eqb_leb (x y : float) :
  PrimFloat.eqb x y = true → PrimFloat.leb x y = true ∧ PrimFloat.leb y x = true.
Proof.
  rewrite !leb_spec, FloatAxioms.eqb_spec. unfold SFleb, SFeqb.
  rewrite (SFcompare_antisym (Prim2SF x) (Prim2SF y)).
  by destruct (SFcompare (Prim2SF x) (Prim2SF y)) as [[]|].
Qed.

Lemma ltb_leb_trans (x y z : float) :
  PrimFloat.ltb x y = true → PrimFloat.leb y z = true → PrimFloat.ltb x z = true.
Proof.
  intros Hxy Hyz.
  destruct (PrimFloat.ltb x z) eqn:Hxz; [done|exfalso].
  destruct (leb_not_nan _ _ (ltb_leb _ _ Hxy)) as [Hx _].
  destruct (leb_not_nan _ _ Hyz) as [_ Hz].
  pose proof (not_ltb_leb _ _ Hx Hz Hxz) as Hzx.
  pose proof (leb_not_ltb _ _ (leb_trans _ _ _ Hyz Hzx)). congruence.
Qed.

Lemma leb_ltb_trans (x y z : float) :
  PrimFloat.leb x y = true → PrimFloat.ltb y z = true → PrimFloat.ltb x z = true.
Proof.
  intros Hxy Hyz.
  destruct (PrimFloat.ltb x z) eqn:Hxz; [done|exfalso].
  destruct (leb_not_nan _ _ Hxy) as [Hx _].
  destruct (leb_not_nan _ _ (ltb_leb _ _ Hyz)) as [_ Hz].
  pose proof (not_ltb_leb _ _ Hx Hz Hxz) as Hzx.
  pose proof (leb_not_ltb _ _ (leb_trans _ _ _ Hzx Hxy)). congruence.
Qed.

(** There is one NaN. *)
Lemma is_nan_eq (x : float) : PrimFloat.is_nan x = true → x = nan.
Proof.
  unfold PrimFloat.is_nan. rewrite FloatAxioms.eqb_spec, Bool.negb_true_iff.
  intros H. rewrite <- (SF2Prim_Prim2SF x).
  destruct (Prim2SF x) as [[]|[]| |[] mx ex] eqn:E; try done.
  all: by rewrite SFeqb_refl in H.
Qed.

End FloatTotalOrder.

(** ** [Math.max], [Math.min] and [clamp] *)

Module MathFacts.
Import JSMath.

Lemma max2_spec (a b : float) :
  PrimFloat.is_nan a = false → PrimFloat.is_nan b = false →
  PrimFloat.is_nan (max2 a b) = false
  ∧ PrimFloat.leb a (max2 a b) = true
  ∧ PrimFloat.leb b (max2 a b) = true
  ∧ (max2 a b = a ∨ max2 a b = b).
Proof.
  intros Ha Hb. unfold max2. rewrite Ha, Hb. simpl.
  destruct (PrimFloat.ltb a b) eqn:Hab.
  { repeat split; auto using ltb_leb, leb_refl. }
  destruct (PrimFloat.ltb b a) eqn:Hba.
  { repeat split; auto using ltb_leb, leb_refl. }
  pose proof (not_ltb_leb _ _ Ha Hb Hab). pose proof (not_ltb_leb _ _ Hb Ha Hba).
  destruct (is_neg_zero a); repeat split; auto using leb_refl.
Qed.

Lemma min2_spec (a b : float) :
  PrimFloat.is_nan a = false → PrimFloat.is_nan b = false →
  PrimFloat.is_nan (min2 a b) = false
  ∧ PrimFloat.leb (min2 a b) a = true
  ∧ PrimFloat.leb (min2 a b) b = true
  ∧ (min2 a b = a ∨ min2 a b = b).
Proof.
  intros Ha Hb. unfold min2. rewrite Ha, Hb. simpl.
  destruct (PrimFloat.ltb a b) eqn:Hab.
  { repeat split; auto using ltb_leb, leb_refl. }
  destruct (PrimFloat.ltb b a) eqn:Hba.
  { repeat split; auto using ltb_leb, leb_refl. }
  pose proof (not_ltb_leb _ _ Ha Hb Hab). pose proof (not_ltb_leb _ _ Hb Ha Hba).
  destruct (is_neg_zero a); repeat split; auto using leb_refl.
Qed.

Lemma max2_nan (a b : float) :
  PrimFloat.is_nan a = true ∨ PrimFloat.is_nan b = true → max2 a b = nan.
Proof. unfold max2. intros [-> | ->]; by rewrite ?orb_true_r. Qed.

Lemma min2_nan (a b : float) :
  PrimFloat.is_nan a = true ∨ PrimFloat.is_nan b = true → min2 a b = nan.
Proof. unfold min2. intros [-> | ->]; by rewrite ?orb_true_r. Qed.

Lemma clamp_range (n lo hi : float) :
  PrimFloat.is_nan n = false → PrimFloat.leb lo hi = true →
  PrimFloat.is_nan (clamp n lo hi) = false
  ∧ PrimFloat.leb lo (clamp n lo hi) = true
  ∧ PrimFloat.leb (clamp n lo hi) hi = true.
Proof.
  intros Hn Hlohi. destruct (leb_not_nan _ _ Hlohi) as [Hlo Hhi].
  unfold clamp.
  destruct (min2_spec hi n Hhi Hn) as (Hm & Hmhi & Hmn & Hmeq).
  destruct (max2_spec lo (min2 hi n) Hlo Hm) as (Hr & Hlor & Hmr & Hreq).
  split; [done|]. split; [done|].
  destruct Hreq as [-> | ->]; done.
Qed.

Lemma clamp_mono (a b lo hi : float) :
  PrimFloat.leb lo hi = true → PrimFloat.leb a b = true →
  PrimFloat.leb (clamp a lo hi) (clamp b lo hi) = true.
Proof.
  intros Hlohi Hab. destruct (leb_not_nan _ _ Hlohi) as [Hlo Hhi].
  destruct (leb_not_nan _ _ Hab) as [Ha Hb]. unfold clamp.
  destruct (min2_spec hi a Hhi Ha) as (Hma & Hmahi & Hmaa & Hmaeq).
  destruct (min2_spec hi b Hhi Hb) as (Hmb & Hmbhi & Hmbb & Hmbeq).
  destruct (max2_spec lo (min2 hi a) Hlo Hma) as (_ & _ & _ & Hra).
  destruct (max2_spec lo (min2 hi b) Hlo Hmb) as (_ & Hlorb & Hmbrb & _).
  assert (Hmm : PrimFloat.leb (min2 hi a) (min2 hi b) = true).
  { destruct Hmbeq as [-> | ->]; [done|]. by apply (leb_trans _ a). }
  destruct Hra as [-> | ->]; [done|]. by apply (leb_trans _ (min2 hi b)).
Qed.

Lemma clamp_fix (n lo hi : float) :
  Num.within lo hi n = true → PrimFloat.eqb (clamp n lo hi) n = true.
Proof.
  unfold Num.within. intros [Hlon Hnhi]%andb_true_iff.
  destruct (leb_not_nan _ _ Hlon) as [Hlo Hn].
  destruct (leb_not_nan _ _ Hnhi) as [_ Hhi]. unfold clamp.
  destruct (min2_spec hi n Hhi Hn) as (Hm & Hmhi & Hmn & Hmeq).
  destruct (max2_spec lo (min2 hi n) Hlo Hm) as (_ & Hlor & Hmr & Hreq).
  assert (Hnm : PrimFloat.leb n (min2 hi n) = true).
  { destruct Hmeq as [-> | ->]; [done|by apply leb_refl]. }
  apply leb_antisym.
  - destruct Hreq as [-> | ->]; done.
  - by apply (leb_trans _ (min2 hi n)).
Qed.

Lemma clamp_nan (n lo hi : float) :
  PrimFloat.is_nan n = true → clamp n lo hi = nan.
Proof.
  intros Hn. unfold clamp. rewrite (min2_nan hi n) by by right.
  by apply max2_nan; right.
Qed.

(** *** Extremes of a list *)

Lemma fold_max2 (xs : list float) (acc : float) :
  PrimFloat.is_nan acc = false →
  Forall (λ x, PrimFloat.is_nan x = false) xs →
  PrimFloat.is_nan (fold_left max2 xs acc) = false
  ∧ PrimFloat.leb acc (fold_left max2 xs acc) = true
  ∧ Forall (λ x, PrimFloat.leb x (fold_left max2 xs acc) = true) xs.
Proof.
  intros Hacc Hxs. revert acc Hacc.
  induction Hxs as [|x xs Hx _ IH]; intros acc Hacc; simpl.
  { split; [done|]. split; [by apply leb_refl|constructor]. }
  destruct (max2_spec acc x Hacc Hx) as (Hm & Haccm & Hxm & _).
  destruct (IH _ Hm) as (Hr & Hmr & Hall).
  split; [done|]. split; [by apply (leb_trans _ (max2 acc x))|].
  constructor; [by apply (leb_trans _ (max2 acc x))|done].
Qed.

Lemma fold_min2 (xs : list float) (acc : float) :
  PrimFloat.is_nan acc = false →
  Forall (λ x, PrimFloat.is_nan x = false) xs →
  PrimFloat.is_nan (fold_left min2 xs acc) = false
  ∧ PrimFloat.leb (fold_left min2 xs acc) acc = true
  ∧ Forall (λ x, PrimFloat.leb (fold_left min2 xs acc) x = true) xs.
Proof.
  intros Hacc Hxs. revert acc Hacc.
  induction Hxs as [|x xs Hx _ IH]; intros acc Hacc; simpl.
  { split; [done|]. split; [by apply leb_refl|constructor]. }
  destruct (min2_spec acc x Hacc Hx) as (Hm & Hmacc & Hmx & _).
  destruct (IH _ Hm) as (Hr & Hrm & Hall).
  split; [done|]. split; [by apply (leb_trans _ (min2 acc x))|].
  constructor; [by apply (leb_trans _ (min2 acc x))|done].
Qed.

Lemma min_le_max (xs : list float) :
  xs ≠ [] → Forall (λ x, PrimFloat.is_nan x = false) xs →
  PrimFloat.leb (min xs) (max xs) = true.
Proof.
  intros Hne Hxs. destruct xs as [|x xs]; [done|].
  destruct (fold_min2 (x :: xs) infinity eq_refl Hxs) as (_ & _ & Hmin).
  destruct (fold_max2 (x :: xs) neg_infinity eq_refl Hxs) as (_ & _ & Hmax).
  apply Forall_cons in Hmin as [Hmin _]. apply Forall_cons in Hmax as [Hmax _].
  by apply (leb_trans _ x).
Qed.

Lemma min_lower (xs : list float) (x : float) :
  x ∈ xs → Forall (λ y, PrimFloat.is_nan y = false) xs →
  PrimFloat.leb (min xs) x = true.
Proof.
  intros Hin Hxs.
  destruct (fold_min2 xs infinity eq_refl Hxs) as (_ & _ & Hall).
  by apply (proj1 (Forall_forall _ _) Hall).
Qed.

Lemma max_upper (xs : list float) (x : float) :
  x ∈ xs → Forall (λ y, PrimFloat.is_nan y = false) xs →
  PrimFloat.leb x (max xs) = true.
Proof.
  intros Hin Hxs.
  destruct (fold_max2 xs neg_infinity eq_refl Hxs) as (_ & _ & Hall).
  by apply (proj1 (Forall_forall _ _) Hall).
Qed.

Lemma extremes_not_nan (xs : list float) :
  Forall (λ y, PrimFloat.is_nan y = false) xs →
  PrimFloat.is_nan (min xs) = false ∧ PrimFloat.is_nan (max xs) = false.
Proof.
  intros Hxs.
  destruct (fold_min2 xs infinity eq_refl Hxs) as (Hmin & _).
  destruct (fold_max2 xs neg_infinity eq_refl Hxs) as (Hmax & _). done.
Qed.

(** A NaN anywhere in the list makes both extremes NaN. *)
Lemma fold_max2_nan (xs : list float) (acc : float) :
  PrimFloat.is_nan acc = true ∨ Exists (λ x, PrimFloat.is_nan x = true) xs →
  fold_left max2 xs acc = nan.
Proof.
  revert acc. induction xs as [|x xs IH]; intros acc [Hacc|Hex]; simpl.
  - by apply is_nan_eq.
  - by apply Exists_nil in Hex.
  - apply IH. left. by rewrite max2_nan by by left.
  - apply Exists_cons in Hex as [Hx|Hex]; apply IH; [left|by right].
    by rewrite max2_nan by by right.
Qed.

Lemma fold_min2_nan (xs : list float) (acc : float) :
  PrimFloat.is_nan acc = true ∨ Exists (λ x, PrimFloat.is_nan x = true) xs →
  fold_left min2 xs acc = nan.
Proof.
  revert acc. induction xs as [|x xs IH]; intros acc [Hacc|Hex]; simpl.
  - by apply is_nan_eq.
  - by apply Exists_nil in Hex.
  - apply IH. left. by rewrite min2_nan by by left.
  - apply Exists_cons in Hex as [Hx|Hex]; apply IH; [left|by right].
    by rewrite min2_nan by by right.
Qed.

End MathFacts.

(** X1: for bounds [min <= max] and a number [n] that is not NaN,
    [clamp(n, min, max)] lies within [[min, max]], equals [n] when [n]
    already lies within, and is monotone in [n]. *)
Theorem clamp_within_bounds (n lo hi : float) :
  PrimFloat.is_nan n = false →
  PrimFloat.leb lo hi = true →
  Num.within lo hi (clamp n lo hi) = true
  ∧ (Num.within lo hi n = true → PrimFloat.eqb (clamp n lo hi) n = true)
  ∧ (∀ m, PrimFloat.leb n m = true →
          PrimFloat.leb (clamp n lo hi) (clamp m lo hi) = true).
Proof.
  intros Hn Hlohi.
  destruct (MathFacts.clamp_range n lo hi Hn Hlohi) as (_ & H1 & H2).
  split; [unfold Num.within; by rewrite H1, H2|].
  split; [apply MathFacts.clamp_fix|].
  intros m Hnm. by apply MathFacts.clamp_mono.
Qed.

Lemma clamp_within_bounds_witness :
  Num.within (- Fit.lat_limit) Fit.lat_limit (clamp 90 (- Fit.lat_limit) Fit.lat_limit)
  = true.
Proof.
  apply (clamp_within_bounds 90 (- Fit.lat_limit) Fit.lat_limit); reflexivity.
Defined.

(** [clamp] does not repair NaN: a NaN input gives NaN for every pair of
    bounds, and so do NaN bounds. *)
Lemma clamp_passes_NaN (n lo hi : float) :
  PrimFloat.is_nan n = true ∨ PrimFloat.is_nan lo = true ∨ PrimFloat.is_nan hi = true →
  clamp n lo hi = nan.
Proof.
  intros [Hn|[Hlo|Hhi]]; unfold clamp.
  - by apply MathFacts.clamp_nan.
  - by apply MathFacts.max2_nan; left.
  - rewrite (MathFacts.min2_nan hi n) by by left.
    by apply MathFacts.max2_nan; right.
Qed.

(** ** Fitting the map *)

Module FitFacts.
Import Fit.

Lemma located_coords (points : list Point) :
  Forall (λ p, located p = true) points →
  Forall (λ x, PrimFloat.is_nan x = false) (map lat points)
  ∧ Forall (λ x, PrimFloat.is_nan x = false) (map lon points).
Proof.
  intros H. split; apply Forall_fmap; eapply Forall_impl; try exact H;
    intros p [H1 H2]%andb_true_iff; simpl; by apply Bool.negb_true_iff.
Qed.

(** The clamped extremes of a list of numbers. *)
Lemma clamped_extremes (xs : list float) (lim : float) :
  xs ≠ [] → Forall (λ x, PrimFloat.is_nan x = false) xs →
  PrimFloat.leb (- lim) lim = true →
  let lo := clamp (JSMath.min xs) (- lim) lim in
  let hi := clamp (JSMath.max xs) (- lim) lim in
  PrimFloat.leb (- lim) lo = true
  ∧ PrimFloat.leb lo hi = true
  ∧ PrimFloat.leb hi lim = true
  ∧ ∀ x, x ∈ xs → Num.within (- lim) lim x = true →
         PrimFloat.leb lo x = true ∧ PrimFloat.leb x hi = true.
Proof.
  intros Hne Hxs Hlim lo hi.
  destruct (MathFacts.extremes_not_nan xs Hxs) as [Hmin Hmax].
  destruct (MathFacts.clamp_range _ _ _ Hmin Hlim) as (_ & Hlo1 & _).
  destruct (MathFacts.clamp_range _ _ _ Hmax Hlim) as (_ & _ & Hhi2).
  split; [done|].
  split; [by apply MathFacts.clamp_mono, MathFacts.min_le_max|].
  split; [done|].
  intros x Hin Hx.
  destruct (eqb_leb _ _ (MathFacts.clamp_fix _ _ _ Hx)) as [Hcx Hxc].
  split.
  - apply (leb_trans _ (clamp x (- lim) lim)); [|done].
    by apply MathFacts.clamp_mono, MathFacts.min_lower.
  - apply (leb_trans _ (clamp x (- lim) lim)); [done|].
    by apply MathFacts.clamp_mono, MathFacts.max_upper.
Qed.

Lemma fit_Some (points : list Point) (autoFit : bool) (force : float) (b : Bounds) :
  fit points autoFit force = Some b →
  points ≠ []
  ∧ b = {| south := clamp (JSMath.min (map lat points)) (- lat_limit) lat_limit;
           west := clamp (JSMath.min (map lon points)) (- lon_limit) lon_limit;
           north := clamp (JSMath.max (map lat points)) (- lat_limit) lat_limit;
           east := clamp (JSMath.max (map lon points)) (- lon_limit) lon_limit |}.
Proof.
  unfold fit. destruct points as [|p points]; [done|]. simpl length.
  cbn [Nat.eqb]. destruct (negb autoFit && PrimFloat.eqb force 0); [done|].
  intros [= <-]. done.
Qed.

End FitFacts.

(** X2: when [FitToBounds] calls [map.fitBounds] for points none of whose
    coordinates is NaN, the corners it passes are ordered and lie within
    the clamp limits (south <= north within +-89.9, west <= east within
    +-179.9), and every point whose coordinates lie within those limits is
    inside the box. *)
Theorem fit_box_is_ordered_and_covers
    (points : list Point) (autoFit : bool) (force : float) (b : Fit.Bounds) :
  Forall (λ p, Fit.located p = true) points →
  Fit.fit points autoFit force = Some b →
  Num.within (- Fit.lat_limit) Fit.lat_limit (Fit.south b) = true
  ∧ Num.within (- Fit.lat_limit) Fit.lat_limit (Fit.north b) = true
  ∧ PrimFloat.leb (Fit.south b) (Fit.north b) = true
  ∧ Num.within (- Fit.lon_limit) Fit.lon_limit (Fit.west b) = true
  ∧ Num.within (- Fit.lon_limit) Fit.lon_limit (Fit.east b) = true
  ∧ PrimFloat.leb (Fit.west b) (Fit.east b) = true
  ∧ ∀ p, p ∈ points →
         Num.within (- Fit.lat_limit) Fit.lat_limit (lat p) = true →
         Num.within (- Fit.lon_limit) Fit.lon_limit (lon p) = true →
         Num.within (Fit.south b) (Fit.north b) (lat p) = true
         ∧ Num.within (Fit.west b) (Fit.east b) (lon p) = true.
Proof.
  intros Hloc [Hne ->]%FitFacts.fit_Some. cbn [Fit.south Fit.north Fit.west Fit.east].
  destruct (FitFacts.located_coords points Hloc) as [Hlats Hlons].
  assert (Hne1 : map lat points ≠ []) by (by destruct points).
  assert (Hne2 : map lon points ≠ []) by (by destruct points).
  destruct (FitFacts.clamped_extremes _ Fit.lat_limit Hne1 Hlats eq_refl)
    as (Hs & Hsn & Hn & Hlat).
  destruct (FitFacts.clamped_extremes _ Fit.lon_limit Hne2 Hlons eq_refl)
    as (Hw & Hwe & He & Hlon).
  unfold Num.within.
  rewrite Hs, Hn, Hsn, Hw, He, Hwe.
  rewrite (leb_trans _ _ _ Hsn Hn), (leb_trans _ _ _ Hs Hsn).
  rewrite (leb_trans _ _ _ Hwe He), (leb_trans _ _ _ Hw Hwe).
  repeat (split; [done|]).
  intros p Hp Hplat Hplon.
  destruct (Hlat (lat p)) as [-> ->]; [by apply list_elem_of_fmap_2|done|].
  destruct (Hlon (lon p)) as [-> ->]; [by apply list_elem_of_fmap_2|done|].
  done.
Qed.

Lemma fit_box_is_ordered_and_covers_witness :
  let points := [ {| lat := 45; lon := (-122); alt_km := None |};
                  {| lat := (-90); lon := 180; alt_km := Some 3%float |} ] in
  ∃ b, Fit.fit points true 0 = Some b
       ∧ PrimFloat.leb (Fit.south b) (Fit.north b) = true.
Proof.
  intros points. eexists. split; [reflexivity|].
  eapply (fit_box_is_ordered_and_covers points true 0).
  - repeat constructor.
  - reflexivity.
Defined.

(** X3: [FitToBounds] hands NaN corners to [map.fitBounds] as soon as one
    point has a NaN latitude: both [south] and [north] are NaN. *)
Theorem fit_box_with_NaN_point
    (points : list Point) (autoFit : bool) (force : float) (b : Fit.Bounds) :
  Exists (λ p, PrimFloat.is_nan (lat p) = true) points →
  Fit.fit points autoFit force = Some b →
  Fit.south b = nan ∧ Fit.north b = nan.
Proof.
  intros Hex [_ ->]%FitFacts.fit_Some. cbn [Fit.south Fit.north].
  assert (Hlats : Exists (λ x, PrimFloat.is_nan x = true) (map lat points)).
  { apply Exists_exists in Hex as (p & Hp & Hnan). apply Exists_exists.
    exists (lat p). split; [by apply list_elem_of_fmap_2|done]. }
  unfold JSMath.min, JSMath.max.
  rewrite MathFacts.fold_min2_nan, MathFacts.fold_max2_nan by by right.
  done.
Qed.

Lemma fit_box_with_NaN_point_witness :
  ∃ b, Fit.fit [ {| lat := nan; lon := 0; alt_km := None |} ] true 0 = Some b
       ∧ Fit.south b = nan ∧ Fit.north b = nan.
Proof.
  eexists. split; [reflexivity|].
  apply (fit_box_with_NaN_point [ {| lat := nan; lon := 0; alt_km := None |} ] true 0).
  - constructor. reflexivity.
  - reflexivity.
Defined.


(** ** Altitude bands *)

Module LegendFacts.
Import Legend.

Lemma leb_negb_ltb (x y : float) :
  PrimFloat.is_nan x = false → PrimFloat.is_nan y = false →
  PrimFloat.leb y x = negb (PrimFloat.ltb x y).
Proof.
  intros Hx Hy. destruct (PrimFloat.ltb x y) eqn:Hlt; simpl.
  - destruct (PrimFloat.leb y x) eqn:Hle; [|done].
    by rewrite (leb_not_ltb _ _ Hle) in Hlt.
  - by apply not_ltb_leb.
Qed.

Lemma find_head {A : Type} (f : A → bool) (l : list A) :
  List.find f l = head (List.filter f l).
Proof. induction l as [|x l IH]; [done|]. simpl. by destruct (f x). Qed.

Lemma band_of_head (a : option float) : band_of a = head (matching a).
Proof. apply find_head. Qed.

(** A number that is not NaN passes the test of exactly one band, the one
    the thresholds give. *)
Lemma matching_number (x : float) :
  PrimFloat.is_nan x = false →
  ∃ b, matching (Some x) = [b] ∧ ALT_BANDS !! by_threshold x = Some b.
Proof.
  intros Hx. unfold matching, by_threshold, ALT_BANDS.
  cbn [List.filter test]. unfold or_minus_one, below, Num.geb.
  cbn [default id].
  rewrite !(leb_negb_ltb x) by done.
  destruct (PrimFloat.ltb x 1) eqn:H1.
  { rewrite (ltb_leb_trans x 1 5), (ltb_leb_trans x 1 10), (ltb_leb_trans x 1 20)
      by done. simpl. eauto. }
  destruct (PrimFloat.ltb x 5) eqn:H5.
  { rewrite (ltb_leb_trans x 5 10), (ltb_leb_trans x 5 20) by done. simpl. eauto. }
  destruct (PrimFloat.ltb x 10) eqn:H10.
  { rewrite (ltb_leb_trans x 10 20) by done. simpl. eauto. }
  destruct (PrimFloat.ltb x 20) eqn:H20; simpl; eauto.
Qed.

Lemma matching_null : matching None = take 1 ALT_BANDS.
Proof. reflexivity. Qed.

Lemma matching_NaN : matching (Some nan) = [].
Proof. reflexivity. Qed.

End LegendFacts.

(** X4: the five altitude bands partition the altitudes: [null] and every
    number that is not NaN pass the test of exactly one band, whose colour
    [colorForAlt] returns and whose label the popup shows; a NaN altitude
    passes no test, gets the fallback gray and the label [Unknown]. *)
Theorem altitude_bands_partition (a : option float) :
  (∃ b, Legend.matching a = [b]
        ∧ b ∈ Legend.ALT_BANDS
        ∧ Legend.colorForAlt a = Legend.color b
        ∧ Legend.range_label a = Legend.label b)
  ∨ (a = Some nan
     ∧ Legend.matching a = []
     ∧ Legend.colorForAlt a = "#6b7280"
     ∧ Legend.range_label a = "Unknown").
Proof.
  unfold Legend.colorForAlt, Legend.range_label.
  rewrite LegendFacts.band_of_head.
  destruct a as [x|].
  - destruct (PrimFloat.is_nan x) eqn:Hx.
    + right. apply is_nan_eq in Hx as ->. done.
    + left. destruct (LegendFacts.matching_number x Hx) as (b & -> & Hb).
      exists b. split; [done|]. split; [by eapply list_elem_of_lookup_2|done].
  - left. eexists. split; [reflexivity|]. split; [|done].
    apply list_elem_of_here.
Qed.

(** X5: for every Point the row validator returns, the marker colour
    follows the thresholds read in order: gray without altitude or below
    1 km, green below 5, blue below 10, amber below 20, red from 20 km on;
    the popup never shows the bare label [Unknown]. *)
Theorem accepted_point_colour (row : value) (p : Point) :
  parseRow row = Some p →
  Legend.colorForAlt (alt_km p) =
    match alt_km p with
    | None => "#6b7280"
    | Some a =>
        if PrimFloat.ltb a 1 then "#6b7280"
        else if PrimFloat.ltb a 5 then "#22c55e"
        else if PrimFloat.ltb a 10 then "#3b82f6"
        else if PrimFloat.ltb a 20 then "#f59e0b"
        else "#ef4444"
    end
  ∧ Legend.range_label (alt_km p) ≠ "Unknown".
Proof.
  intros Hp. unfold Legend.colorForAlt, Legend.range_label.
  rewrite LegendFacts.band_of_head.
  destruct (alt_km p) as [a|] eqn:Halt; [|done].
  pose proof (parseRow_altitude_range row p a Hp Halt) as Ha.
  apply andb_true_iff in Ha as [Ha _]. apply leb_not_nan in Ha as [_ Ha].
  destruct (LegendFacts.matching_number a Ha) as (b & -> & Hb).
  unfold Legend.by_threshold in Hb. simpl.
  destruct (PrimFloat.ltb a 1); [by injection Hb as <-|].
  destruct (PrimFloat.ltb a 5); [by injection Hb as <-|].
  destruct (PrimFloat.ltb a 10); [by injection Hb as <-|].
  destruct (PrimFloat.ltb a 20); by injection Hb as <-.
Qed.

Lemma accepted_point_colour_witness :
  Legend.colorForAlt (Some 7%float) = "#3b82f6"
  ∧ Legend.range_label (Some 7%float) ≠ "Unknown".
Proof.
  exact (accepted_point_colour
           (VArray [VNumber 45; VNumber (-122); VNumber 7])
           {| lat := 45; lon := (-122); alt_km := Some 7%float |} eq_refl).
Defined.

(** ** The image of the row validator *)

Module RowFacts.

Lemma parseRow_acceptable (row : value) (p : Point) :
  parseRow row = Some p → acceptable p = true.
Proof.
  intros Hp. pose proof (λ a, parseRow_altitude_range row p a Hp) as Halt.
  apply parseRow_Some in Hp as (_ & _ & _ & _ & Hla & Hlo & _).
  unfold acceptable. rewrite Hla, Hlo. simpl.
  destruct (alt_km p) as [a|]; [by apply Halt|done].
Qed.

Lemma acceptable_row_of_point (p : Point) :
  acceptable p = true → parseRow (row_of_point p) = Some p.
Proof.
  unfold acceptable.
  intros [[Hla%Bool.negb_true_iff Hlo%Bool.negb_true_iff]%andb_true_iff Halt]%andb_true_iff.
  destruct p as [la lo alt]. simpl in *.
  unfold parseRow, row_of_point. simpl.
  rewrite range_test, Hla, Hlo. simpl.
  destruct alt as [a|]; [|done].
  change (Num.geb a 0 && PrimFloat.leb a 40) with (Num.within 0 40 a).
  by rewrite Halt.
Qed.

Lemma omap_row_of_point (points : list Point) :
  Forall (λ p, acceptable p = true) points →
  omap parseRow (map row_of_point points) = points.
Proof.
  induction 1 as [|p points Hp _ IH]; [done|].
  rewrite map_cons. csimpl. rewrite (acceptable_row_of_point p Hp). csimpl.
  by rewrite IH.
Qed.

End RowFacts.

(** X6: the Points the row validator can return are exactly those whose
    latitude is neither below -90 nor above 90, whose longitude is neither
    below -180 nor above 180, and whose altitude, when present, lies in
    [0, 40]; each of them is returned for its own tuple
    [[lat, lon, alt_km]]. *)
Theorem parseRow_image (p : Point) :
  (∃ row, parseRow row = Some p) ↔ acceptable p = true.
Proof.
  split.
  - intros [row Hrow]. by apply (RowFacts.parseRow_acceptable row).
  - intros Hp. exists (row_of_point p). by apply RowFacts.acceptable_row_of_point.
Qed.

(** The row validator reads the first three elements only: whatever
    follows them in the record does not change the result. *)
Lemma parseRow_ignores_tail (a b c : value) (rest : list value) :
  parseRow (VArray (a :: b :: c :: rest)) = parseRow (VArray [a; b; c]).
Proof. reflexivity. Qed.

(** X7: a snapshot survives the trip through the fetcher: when the body of
    a successful response is the array of the tuples of acceptable Points,
    or an object whose [points] field is that array, [fetchHour] resolves
    with exactly these Points in the same order. *)
Theorem fetchHour_round_trip
    (net : string → option Response) (hh : string) (res : Response)
    (points : list Point) :
  net (WB_BASE ++ hh ++ ".json")%string = Some res →
  ok res = true →
  Forall (λ p, acceptable p = true) points →
  json res = Some (VArray (map row_of_point points))
  ∨ json res = Some (VObject [("points", VArray (map row_of_point points))]) →
  fetchHour net hh = Resolved points.
Proof.
  intros Hnet Hok Hacc Hbody. unfold fetchHour. rewrite Hnet, Hok. simpl.
  destruct Hbody as [-> | ->]; rewrite filter_Boolean_map;
    by rewrite ?rows_of_array, ?(rows_of_points _ (map row_of_point points)),
               RowFacts.omap_row_of_point.
Qed.

Lemma fetchHour_round_trip_witness :
  let points := [ {| lat := 45; lon := (-122); alt_km := Some 7%float |};
                  {| lat := (-90); lon := 180; alt_km := None |} ] in
  fetchHour (λ _, Some {| ok := true; status := 200;
                          json := Some (VArray (map row_of_point points)) |}) "00"
  = Resolved points.
Proof.
  intros points.
  apply (fetchHour_round_trip _ "00" {| ok := true; status := 200;
                          json := Some (VArray (map row_of_point points)) |}).
  - reflexivity.
  - reflexivity.
  - repeat constructor.
  - left. reflexivity.
Defined.

(** X8: a rejected row is dropped where it stands: the Points fetched
    from rows [before ++ bad :: after] are the Points of [before] followed
    by the Points of [after], and the fetch does not fail. *)
Theorem fetchHour_drops_rejected_row
    (net : string → option Response) (hh : string) (res : Response)
    (before after : list value) (bad : value) :
  net (WB_BASE ++ hh ++ ".json")%string = Some res →
  ok res = true →
  json res = Some (VArray (before ++ bad :: after)) →
  parseRow bad = None →
  fetchHour net hh = Resolved (omap parseRow before ++ omap parseRow after).
Proof.
  intros Hnet Hok Hbody Hbad. unfold fetchHour. rewrite Hnet, Hok, Hbody. simpl.
  rewrite filter_Boolean_map, omap_app. simpl. by rewrite Hbad.
Qed.

Lemma fetchHour_drops_rejected_row_witness :
  fetchHour (λ _, Some {| ok := true; status := 200;
                          json := Some (VArray [ VArray [VNumber 1; VNumber 2];
                                                 VString "gap";
                                                 VArray [VNumber 3; VNumber 4] ]) |})
            "00"
  = Resolved [ {| lat := 1; lon := 2; alt_km := None |};
               {| lat := 3; lon := 4; alt_km := None |} ].
Proof.
  apply (fetchHour_drops_rejected_row _ "00"
           {| ok := true; status := 200;
              json := Some (VArray [ VArray [VNumber 1; VNumber 2];
                                     VString "gap";
                                     VArray [VNumber 3; VNumber 4] ]) |}
           [VArray [VNumber 1; VNumber 2]] [VArray [VNumber 3; VNumber 4]]
           (VString "gap")); reflexivity.
Defined.

(** ** Progress while a cycle runs *)

Module ProgressFacts.
Import Progressive.

Lemma live_app (tr1 tr2 : list event) :
  live (tr1 ++ tr2) = live tr1 && live tr2.
Proof. apply forallb_app. Qed.

Lemma dispatched_app (n : nat) (tr1 tr2 : list event) :
  dispatched n (tr1 ++ tr2) = dispatched n tr1 && dispatched n tr2.
Proof. apply forallb_app. Qed.

Lemma finallies_app (tr1 tr2 : list event) :
  finallies (tr1 ++ tr2) = (finallies tr1 + finallies tr2)%nat.
Proof.
  induction tr1 as [|e tr1 IH]; [done|].
  destruct e; simpl; by rewrite ?IH.
Qed.

(** Counting up to 24 in binary64 is exact. *)
Lemma count_exact (n : nat) :
  (n ≤ 24)%nat → Nat.iter n (λ x, (x + 1)%float) 0%float = Num.of_nat n.
Proof.
  intros Hn. do 25 (destruct n as [|n]; [reflexivity|]). lia.
Qed.

Lemma count_below_goal (n : nat) :
  (n < 24)%nat →
  PrimFloat.eqb (Nat.iter n (λ x, (x + 1)%float) 0%float) (Num.of_nat (length HOURS))
  = false.
Proof.
  intros Hn. do 24 (destruct n as [|n]; [reflexivity|]). lia.
Qed.

Section Cycle.
Variable fetched : nat → settlement (list Point).

Lemma step_loading (e : event) (h : hook) :
  loading (state (step fetched h e)) =
    match e with
    | Finally _ =>
        if cancelled (env h) then loading (state h)
        else if PrimFloat.eqb (completed (env h) + 1) (Num.of_nat (length HOURS))
             then false else loading (state h)
    | _ => loading (state h)
    end.
Proof.
  unfold step. destruct e as [idx|idx|]; simpl; [| |done].
  - destruct (fetched idx); simpl; [|done].
    unfold then_cb. by destruct (cancelled (env h)).
  - unfold finally_cb. destruct (cancelled (env h)); [done|]. simpl.
    by destruct (PrimFloat.eqb (_ + 1) _).
Qed.

Lemma run_loading (tr : list event) (h : hook) (k : nat) :
  live tr = true →
  cancelled (env h) = false →
  completed (env h) = Nat.iter k (λ x, (x + 1)%float) 0%float →
  loading (state h) = true →
  (k + finallies tr < 24)%nat →
  loading (state (run fetched tr h)) = true.
Proof.
  revert h k. induction tr as [|e tr IH]; intros h k Hlive Hc Hk Hl Hlt; [done|].
  simpl in Hlive. apply andb_true_iff in Hlive as [He Hlive].
  rewrite ProgressiveFacts.run_cons.
  destruct e as [idx|idx|]; [| |done].
  - apply (IH _ k); rewrite ?RunFacts.step_env, ?step_loading; done.
  - simpl in Hlt. apply (IH _ (S k)); rewrite ?RunFacts.step_env, ?step_loading, ?Hc;
      try done; try lia.
    + simpl. by rewrite Hk.
    + rewrite Hk. change (Nat.iter k _ 0%float + 1)%float
        with (Nat.iter (S k) (λ x, (x + 1)%float) 0%float).
      by rewrite count_below_goal by lia.
Qed.

End Cycle.
End ProgressFacts.

(** X9: while a cycle of the progressive hook runs uncancelled, after any
    part of it in which [n] of the [.finally] callbacks have run, the
    counter is [n], [progress] is [n / 24], [error] is empty, and [loading]
    is on exactly as long as [n] is below 24. *)
Theorem progress_tracks_settlements
    (fetched : nat → settlement (list Point))
    (done_so_far to_come : list Progressive.event) :
  Progressive.complete_cycle (done_so_far ++ to_come) = true →
  let h := Progressive.run fetched done_so_far
             (Progressive.effect_start Progressive.mount) in
  let n := Progressive.finallies done_so_far in
  (n ≤ 24)%nat
  ∧ Progressive.completed (Progressive.env h) = Num.of_nat n
  ∧ progress (Progressive.state h) = (Num.of_nat n / 24)%float
  ∧ loading (Progressive.state h) = (n <? 24)%nat
  ∧ error (Progressive.state h) = "".
Proof.
  intros Hcc h n.
  pose proof (CycleFacts.complete_cycle_finallies _ Hcc) as Hfin.
  destruct (CycleFacts.complete_cycle_parts _ Hcc) as (Hlive & _ & _).
  rewrite ProgressFacts.live_app in Hlive. apply andb_true_iff in Hlive as [Hlive _].
  rewrite ProgressFacts.finallies_app in Hfin. fold n in Hfin.
  assert (Hn : (n ≤ 24)%nat) by (change (length HOURS) with 24%nat in Hfin; lia).
  destruct (RunFacts.run_env fetched done_so_far
              (Progressive.effect_start Progressive.mount) Hlive eq_refl)
    as [Hc Hcount].
  fold h n in Hc, Hcount. simpl in Hcount.
  rewrite ProgressFacts.count_exact in Hcount by done.
  destruct (RunFacts.run_in_step fetched done_so_far
              (Progressive.effect_start Progressive.mount)
              (RunFacts.start_in_step Progressive.mount)) as [Hp Hl].
  fold h in Hp, Hl. rewrite Hcount in Hp, Hl.
  split; [done|]. split; [done|]. split; [exact Hp|].
  split; [|apply RunFacts.run_error].
  destruct (Nat.ltb_spec n 24) as [Hlt|Hge].
  - by apply (ProgressFacts.run_loading fetched done_so_far _ 0).
  - apply Hl. assert (n = 24%nat) as -> by lia. reflexivity.
Qed.

Lemma progress_tracks_settlements_witness :
  let tr := [Progressive.Settle 5; Progressive.Finally 5; Progressive.Settle 0] in
  let h := Progressive.run (λ _, Rejected NetworkError) tr
             (Progressive.effect_start Progressive.mount) in
  progress (Progressive.state h) = (1 / 24)%float
  ∧ loading (Progressive.state h) = true.
Proof.
  intros tr h.
  destruct (progress_tracks_settlements (λ _, Rejected NetworkError) tr
              (Progressive.Finally 0
               :: flat_map (λ idx, [Progressive.Settle idx; Progressive.Finally idx])
                    [1; 2; 3; 4; 6; 7; 8; 9; 10; 11; 12; 13; 14; 15; 16; 17; 18; 19;
                     20; 21; 22; 23]%nat))
    as (_ & _ & Hp & Hl & _); [vm_compute; reflexivity|].
  split; [exact Hp|exact Hl].
Defined.

(** X10: partial results are live and each chain writes its own slot only:
    while a cycle runs uncancelled, slot [i] of [byHour] holds the fetched
    Points of hour [i] as soon as the first callback of chain [i] has run
    after a successful fetch, and the empty list until then and after a
    failed fetch, whatever the other chains have done. *)
Theorem slot_holds_own_result
    (fetched : nat → settlement (list Point))
    (tr : list Progressive.event) (i : nat) :
  Progressive.live tr = true →
  Progressive.dispatched 24 tr = true →
  (i < 24)%nat →
  byHour (Progressive.state
            (Progressive.run fetched tr (Progressive.effect_start Progressive.mount)))
    !! i
  = Some (Some (if bool_decide (Progressive.Settle i ∈ tr)
                then points_or_empty (fetched i) else [])).
Proof.
  intros Hlive Hdisp Hi.
  rewrite RunFacts.run_lookup by done.
  assert (Hstart : byHour (Progressive.state
                             (Progressive.effect_start Progressive.mount)) !! i
                   = Some (Some [])) by (by apply Array_from_empty_lookup).
  rewrite Hstart. case_bool_decide; [|done]. by destruct (fetched i).
Qed.

Lemma slot_holds_own_result_witness :
  let fetched (idx : nat) :=
    Resolved [ {| lat := 0; lon := 0; alt_km := None |} ] in
  let tr := [Progressive.Settle 3; Progressive.Settle 9; Progressive.Finally 9] in
  byHour (Progressive.state
            (Progressive.run fetched tr (Progressive.effect_start Progressive.mount)))
    !! 4%nat
  = Some (Some []).
Proof.
  intros fetched tr.
  exact (slot_holds_own_result fetched tr 4 eq_refl eq_refl ltac:(lia)).
Defined.

(** ** The batch hook *)

Module BatchFacts.
Import Batch.

Section Cycle.
Variable fetched : nat → settlement (list Point).

Lemma batch_run_cons (e : event) (tr : list event) (h : hook) :
  run fetched (e :: tr) h = run fetched tr (step fetched h e).
Proof. reflexivity. Qed.

Lemma batch_run_app (tr1 tr2 : list event) (h : hook) :
  run fetched (tr1 ++ tr2) h = run fetched tr2 (run fetched tr1 h).
Proof. apply fold_left_app. Qed.

Lemma batch_step_cancelled (e : event) (h : hook) :
  cancelled h = true → step fetched h e = h.
Proof.
  intros Hc. destruct h as [s c cs]. simpl in Hc. subst c.
  unfold step. destruct e; simpl; by rewrite app_nil_r.
Qed.

Lemma batch_run_cancelled (tr : list event) (h : hook) :
  cancelled h = true → run fetched tr h = h.
Proof.
  induction tr as [|e tr IH]; [done|]. intros Hc.
  by rewrite batch_run_cons, batch_step_cancelled, IH.
Qed.

Lemma batch_step_state (e : event) (h : hook) :
  state (step fetched h e) =
    match e with
    | AllSettled =>
        if cancelled h then state h
        else {| loading := false; error := error (state h);
                byHour := all fetched; progress := progress (state h) |}
    | Cleanup => state h
    end.
Proof. unfold step. destruct e; simpl; [|done]. by destruct (cancelled h). Qed.

End Cycle.
End BatchFacts.

(** X11: in the batch hook the result appears all at once, exactly when
    loading ends: at every moment either [loading] is on and [byHour] is
    the empty array, or [loading] is off and [byHour] is the complete array
    of 24 lists; [error] stays empty whichever fetches fail. *)
Theorem batch_result_is_all_or_nothing
    (fetched : nat → settlement (list Point)) (tr : list Batch.event) :
  let s := Batch.state (Batch.run fetched tr (Batch.effect_start Batch.mount)) in
  error s = ""
  ∧ ((loading s = true ∧ byHour s = [])
     ∨ (loading s = false ∧ byHour s = Batch.all fetched
        ∧ length (byHour s) = 24%nat)).
Proof.
  assert (H : ∀ h,
    (error (Batch.state h) = ""
     ∧ ((loading (Batch.state h) = true ∧ byHour (Batch.state h) = [])
        ∨ (loading (Batch.state h) = false
           ∧ byHour (Batch.state h) = Batch.all fetched
           ∧ length (byHour (Batch.state h)) = 24%nat))) →
    let s := Batch.state (Batch.run fetched tr h) in
    error s = ""
    ∧ ((loading s = true ∧ byHour s = [])
       ∨ (loading s = false ∧ byHour s = Batch.all fetched
          ∧ length (byHour s) = 24%nat))).
  { induction tr as [|e tr IH]; intros h Hh; [done|].
    rewrite BatchFacts.batch_run_cons. apply IH.
    rewrite BatchFacts.batch_step_state. destruct e; [|done].
    destruct (Batch.cancelled h); [done|]. cbn [byHour loading error].
    split; [by destruct Hh|]. right. split; [done|]. split; [done|].
    exact (proj1 (ShapeFacts.batch_all_full fetched)). }
  apply H. split; [done|]. by left.
Qed.

(** X12: once the cleanup of the batch hook has run, the continuation of
    [Promise.all] changes nothing: whatever happened before and whatever
    comes after, the state and the list of setter calls stay as they were
    at cancellation; cancelled before [Promise.all] resolved, [byHour]
    stays empty and [loading] stays on. *)
Theorem cancelled_batch_is_frozen
    (fetched : nat → settlement (list Point)) (before after : list Batch.event) :
  let start := Batch.effect_start Batch.mount in
  let at_cancel := Batch.run fetched (before ++ [Batch.Cleanup]) start in
  Batch.run fetched (before ++ Batch.Cleanup :: after) start = at_cancel
  ∧ Batch.state at_cancel = Batch.state (Batch.run fetched before start)
  ∧ Batch.calls at_cancel = Batch.calls (Batch.run fetched before start)
  ∧ (before = [] →
     byHour (Batch.state at_cancel) = [] ∧ loading (Batch.state at_cancel) = true).
Proof.
  intros start at_cancel. subst at_cancel.
  rewrite !BatchFacts.batch_run_app.
  set (h := Batch.run fetched before start).
  change (Batch.run fetched [Batch.Cleanup] h)
    with (Batch.step fetched h Batch.Cleanup).
  rewrite BatchFacts.batch_run_cons.
  split; [by apply BatchFacts.batch_run_cancelled|].
  split; [done|]. split; [unfold Batch.step; simpl; by rewrite app_nil_r|].
  intros Hb. subst h. by rewrite Hb.
Qed.

(** ** What the page shows *)

Module ViewFacts.
Import View.

Lemma loaded_hours_dense (arr : slots) :
  dense arr = true → loaded_hours arr = length arr.
Proof.
  unfold dense, loaded_hours. intros H. f_equal.
  induction arr as [|x arr IH]; [done|]. simpl in *.
  apply andb_true_iff in H as [-> H]. by rewrite IH.
Qed.

Lemma countAll_sum (arr : slots) :
  countAll arr
  = sum_list_with (λ h : option (list Point),
                     match h with Some points => length points | None => 0%nat end)
                  arr.
Proof.
  unfold countAll.
  assert (H : ∀ acc,
    fold_left (λ a (h : option (list Point)),
                 (a + match h with Some points => length points | None => 0 end)%nat)
              arr acc
    = (acc + sum_list_with (λ h : option (list Point),
                              match h with
                              | Some points => length points
                              | None => 0%nat
                              end) arr)%nat).
  { induction arr as [|x arr IH]; intros acc; simpl; [lia|]. rewrite IH. lia. }
  by rewrite H.
Qed.

End ViewFacts.

(** X13: in the progressive hook the header's count of loaded hours,
    [byHour.filter(Boolean).length], reads 24 at every moment of a cycle,
    before any fetch has settled and whichever fetches fail: an empty list
    is truthy, so a pending or failed hour counts as loaded. *)
Theorem loaded_hours_always_24
    (fetched : nat → settlement (list Point)) (tr : list Progressive.event) :
  Progressive.dispatched 24 tr = true →
  View.loaded_hours (byHour Progressive.mount) = 24%nat
  ∧ View.loaded_hours
      (byHour (Progressive.state
                 (Progressive.run fetched tr
                    (Progressive.effect_start Progressive.mount)))) = 24%nat.
Proof.
  intros Hdisp. split; [reflexivity|].
  destruct (ShapeFacts.run_full fetched tr
              (Progressive.effect_start Progressive.mount) Hdisp
              (ShapeFacts.start_full Progressive.mount)) as [Hlen Hdense].
  by rewrite ViewFacts.loaded_hours_dense.
Qed.

Lemma loaded_hours_always_24_witness :
  View.loaded_hours
    (byHour (Progressive.state
               (Progressive.run (λ _, Rejected NetworkError)
                  [Progressive.Settle 2; Progressive.Finally 2]
                  (Progressive.effect_start Progressive.mount)))) = 24%nat.
Proof.
  apply (loaded_hours_always_24 (λ _, Rejected NetworkError)
           [Progressive.Settle 2; Progressive.Finally 2]).
  reflexivity.
Defined.

(** X14: after a complete cycle the page shows, for hour [i] below 24,
    exactly the Points fetched for hour [i] (none after a failure), no
    Points for an index from 24 on, and as total the sum of the sizes of
    the 24 fetched lists. *)
Theorem page_shows_fetched_points
    (fetched : nat → settlement (list Point)) (tr : list Progressive.event) :
  Progressive.complete_cycle tr = true →
  let arr := byHour (Progressive.state
                       (Progressive.run fetched tr
                          (Progressive.effect_start Progressive.mount))) in
  (∀ i, View.points_at arr i
        = if (i <? 24)%nat then points_or_empty (fetched i) else [])
  ∧ View.countAll arr
    = sum_list_with (λ i, length (points_or_empty (fetched i))) (seq 0 24).
Proof.
  intros Hcc arr.
  destruct (RunFacts.complete_cycle_end fetched tr Hcc) as (_ & _ & _ & _ & _ & Hby).
  fold arr in Hby. rewrite Hby. split.
  - intros i. unfold View.points_at. rewrite list_lookup_fmap.
    destruct (Nat.ltb_spec i 24) as [Hlt|Hge].
    + by rewrite lookup_seq_lt.
    + by rewrite lookup_seq_ge.
  - rewrite ViewFacts.countAll_sum.
    generalize (seq 0 24). intros l. induction l as [|i l IH]; [done|].
    simpl. by rewrite IH.
Qed.

Lemma page_shows_fetched_points_witness :
  let fetched (idx : nat) :=
    if (idx =? 7)%nat then Rejected NetworkError
    else Resolved [ {| lat := 0; lon := 0; alt_km := None |} ] in
  View.countAll
    (byHour (Progressive.state
               (Progressive.run fetched Progressive.in_order
                  (Progressive.effect_start Progressive.mount)))) = 23%nat.
Proof.
  intros fetched.
  destruct (page_shows_fetched_points fetched Progressive.in_order) as [_ Hc];
    [vm_compute; reflexivity|].
  rewrite Hc. reflexivity.
Defined.

(** ** The wind query *)

Module MeteoFacts.
Import Meteo.

Lemma prop_Some (j : value) (k : string) :
  j ≠ VNull → j ≠ VUndefined → ∃ v, prop j k = Some v.
Proof. destruct j; simpl; eauto; done. Qed.

Lemma decode_total (j : value) :
  j ≠ VNull → j ≠ VUndefined → ∃ w, decode j = inr w.
Proof.
  intros H1 H2. unfold decode.
  destruct (prop_Some j "current_weather" H1 H2) as [cw ->].
  destruct (prop_Some j "hourly" H1 H2) as [hourly ->]. eauto.
Qed.

Lemma field_empty (k : string) : field (VObject []) k = VUndefined.
Proof. reflexivity. Qed.

End MeteoFacts.

(** X15: [fetchOpenMeteo] fails when the request is rejected, on a
    non-success status (the failure carries the status), when the body is
    not JSON, and when the body is the JSON value [null], on which reading
    [current_weather] throws; every other decoded body, whatever its
    shape, gives a result. *)
Theorem fetchOpenMeteo_failures
    (Number_toString : float → string) (net : Meteo.URL → option Response)
    (la lo : float) :
  let r := Meteo.fetchOpenMeteo Number_toString net la lo in
  let url := Meteo.forecast_url Number_toString la lo in
  (net url = None → r = inl Meteo.NetworkError)
  ∧ (∀ res, net url = Some res →
       (ok res = false → r = inl (Meteo.HttpError (status res)))
       ∧ (ok res = true → json res = None → r = inl Meteo.SyntaxError)
       ∧ (ok res = true → json res = Some VNull → r = inl Meteo.TypeError)
       ∧ (∀ j, ok res = true → json res = Some j → j ≠ VNull → j ≠ VUndefined →
               ∃ w, r = inr w)).
Proof.
  intros r url. subst r url. unfold Meteo.fetchOpenMeteo.
  split; [by intros ->|].
  intros res ->. split; [by intros ->|]. split; [by intros -> ->|].
  split; [by intros -> ->|].
  intros j -> -> H1 H2. simpl. by apply MeteoFacts.decode_total.
Qed.

(** X16: the wind result tolerates missing parts of the body: without a
    truthy [current_weather] the three ground fields are [undefined],
    without a truthy [hourly] the two 100 m fields are [undefined], and a
    100 m field is the first sample of its series, [undefined] when the
    series is empty or is not an array. *)
Theorem decode_missing_parts (j : value) (w : Meteo.Wx) :
  Meteo.decode j = inr w →
  (∀ cw, Meteo.prop j "current_weather" = Some cw → Meteo.truthy cw = false →
     Meteo.tempC w = VUndefined
     ∧ Meteo.windspeed10m w = VUndefined
     ∧ Meteo.winddir10m w = VUndefined)
  ∧ (∀ hourly, Meteo.prop j "hourly" = Some hourly → Meteo.truthy hourly = false →
       Meteo.windspeed100m w = VUndefined ∧ Meteo.winddir100m w = VUndefined)
  ∧ (∀ fields, Meteo.prop j "hourly" = Some (VObject fields) →
       (∀ samples, assoc "windspeed_100m" fields = VArray samples →
                   Meteo.windspeed100m w = nth 0 samples VUndefined)
       ∧ (Array_isArray (assoc "windspeed_100m" fields) = false →
          Meteo.windspeed100m w = VUndefined)
       ∧ (∀ samples, assoc "winddirection_100m" fields = VArray samples →
                     Meteo.winddir100m w = nth 0 samples VUndefined)
       ∧ (Array_isArray (assoc "winddirection_100m" fields) = false →
          Meteo.winddir100m w = VUndefined)).
Proof.
  unfold Meteo.decode.
  destruct (Meteo.prop j "current_weather") as [cw0|] eqn:Hcw; [|done].
  destruct (Meteo.prop j "hourly") as [hourly0|] eqn:Hh; [|done].
  intros [= <-]. cbn [Meteo.tempC Meteo.windspeed10m Meteo.winddir10m
                      Meteo.windspeed100m Meteo.winddir100m].
  split; [|split].
  - intros cw [= <-] Hf. unfold Meteo.or_empty_object. by rewrite Hf.
  - intros hourly [= <-] Hf. unfold Meteo.or_empty_object. by rewrite Hf.
  - intros fields [= ->]. unfold Meteo.or_empty_object, Meteo.first_sample.
    cbn [Meteo.truthy Meteo.field Meteo.prop default].
    split; [by intros samples ->|].
    split; [intros H; by destruct (assoc "windspeed_100m" fields)|].
    split; [by intros samples ->|].
    intros H; by destruct (assoc "winddirection_100m" fields).
Qed.

Lemma decode_missing_parts_witness :
  ∃ w, Meteo.decode (VObject [("hourly", VObject [("windspeed_100m", VArray [])])])
       = inr w
       ∧ Meteo.tempC w = VUndefined
       ∧ Meteo.windspeed100m w = VUndefined.
Proof.
  eexists. split; [reflexivity|].
  destruct (decode_missing_parts
              (VObject [("hourly", VObject [("windspeed_100m", VArray [])])]) _ eq_refl)
    as (Hcw & _ & Hh).
  destruct (Hcw VUndefined eq_refl eq_refl) as (Ht & _).
  destruct (Hh _ eq_refl) as (Hs & _).
  split; [exact Ht|exact (Hs [] eq_refl)].
Defined.

(** ** The wind-query effect *)

Module WindFacts.
Import WindQuery.

Lemma cancel_last_length (fl : list bool) : length (cancel_last fl) = length fl.
Proof. destruct fl; [done|]. unfold cancel_last. by rewrite length_insert. Qed.

Lemma cancel_last_all (fl : list bool) (i : nat) :
  single_flight fl → (i < length fl)%nat → cancel_last fl !! i = Some true.
Proof.
  intros Hsf Hi. destruct fl as [|b fl]; [simpl in Hi; lia|].
  unfold cancel_last.
  destruct (decide (i = pred (length (b :: fl)))) as [->|Hne].
  - apply list_lookup_insert_eq. simpl. lia.
  - rewrite list_lookup_insert_ne by done. apply Hsf. simpl in *. lia.
Qed.

Lemma single_flight_cancel (fl : list bool) :
  single_flight fl → single_flight (cancel_last fl).
Proof.
  intros Hsf i Hi. rewrite cancel_last_length in Hi.
  apply cancel_last_all; [done|lia].
Qed.

Lemma single_flight_push (fl : list bool) :
  single_flight fl → single_flight (cancel_last fl ++ [false]).
Proof.
  intros Hsf i Hi. rewrite length_app, cancel_last_length in Hi. simpl in Hi.
  rewrite lookup_app_l by (rewrite cancel_last_length; lia).
  apply cancel_last_all; [done|lia].
Qed.

Lemma settle_cancelled (String_of_error : Meteo.failure → string)
    (r : Meteo.failure + Meteo.Wx) :
  settle String_of_error true r = [].
Proof. by destruct r. Qed.

Section Effect.
Variable answers : nat → Meteo.failure + Meteo.Wx.
Variable String_of_error : Meteo.failure → string.

Lemma wind_run_cons (e : event) (tr : list event) (pg : page) :
  run answers String_of_error (e :: tr) pg
  = run answers String_of_error tr (step answers String_of_error pg e).
Proof. reflexivity. Qed.

Lemma step_parts (e : event) (pg : page) :
  flags (step answers String_of_error pg e)
  = fst (handle answers String_of_error e pg)
  ∧ state (step answers String_of_error pg e)
    = apply_updates (state pg) (snd (handle answers String_of_error e pg))
  ∧ refs (step answers String_of_error pg e) = refs pg ++ started e pg.
Proof. unfold step. by destruct (handle answers String_of_error e pg). Qed.

Lemma step_single_flight (e : event) (pg : page) :
  single_flight (flags pg) →
  single_flight (flags (step answers String_of_error pg e)).
Proof.
  intros Hsf. rewrite (proj1 (step_parts e pg)).
  destruct e as [ref p| |i|]; simpl.
  - destruct (selected (state pg)) as [[ref' p']|]; [|done].
    by destruct (ref =? ref')%nat.
  - destruct (effect_due pg); [by apply single_flight_push|done].
  - by destruct (flags pg !! i).
  - by apply single_flight_cancel.
Qed.

Lemma run_single_flight (tr : list event) (pg : page) :
  single_flight (flags pg) →
  single_flight (flags (run answers String_of_error tr pg)).
Proof.
  revert pg. induction tr as [|e tr IH]; intros pg Hsf; [done|].
  rewrite wind_run_cons. by apply IH, step_single_flight.
Qed.

Lemma mount_single_flight : single_flight (flags mount).
Proof. intros i Hi. simpl in Hi. lia. Qed.






End Effect.

(** A click alone does not start the query: the render with the new
    selection is committed with the cells as the earlier run left them,
    and the panel shows the earlier answer until the effect has run. *)
Lemma click_commits_before_effect :
  let w := {| Meteo.tempC := VNumber 1; Meteo.windspeed10m := VUndefined;
              Meteo.winddir10m := VUndefined;
              Meteo.windspeed100m := VUndefined;
              Meteo.winddir100m := VUndefined |} in
  let p := {| lat := 0; lon := 0; alt_km := None |} in
  let q := {| lat := 1; lon := 1; alt_km := None |} in
  let first := run (λ _, inr w) (λ _, "Error") [Click 10 p; Effect; Settle 0] mount in
  let clicked := step (λ _, inr w) (λ _, "Error") first (Click 11 q) in
  let queried := step (λ _, inr w) (λ _, "Error") clicked Effect in
  handle (λ _, inr w) (λ _, "Error") (Click 11 q) first
  = (flags first, [SetSelected 11 q])
  ∧ selected (state clicked) = Some (11%nat, q)
  ∧ flags clicked = [false] ∧ refs clicked = [10%nat]
  ∧ effect_due clicked = Some 11%nat
  ∧ shown (state clicked) = Some w
  ∧ flags queried = [true; false] ∧ refs queried = [10%nat; 11%nat]
  ∧ wxLoading (state queried) = true
  ∧ shown (state queried) = None.
Proof. repeat split. Qed.

End WindFacts.

(** X17: only the latest wind query can write: after any sequence of
    clicks, settlements and an unmount, the settlement of every run of the
    effect but the latest one calls no setter, and after the page is torn
    down the settlement of no run does. *)
Theorem stale_wind_queries_are_silent
    (answers : nat → Meteo.failure + Meteo.Wx)
    (String_of_error : Meteo.failure → string)
    (tr : list WindQuery.event) (i : nat) :
  let pg := WindQuery.run answers String_of_error tr WindQuery.mount in
  ((S i < length (WindQuery.flags pg))%nat →
     WindQuery.handle answers String_of_error (WindQuery.Settle i) pg
     = (WindQuery.flags pg, []))
  ∧ snd (WindQuery.handle answers String_of_error (WindQuery.Settle i)
           (WindQuery.step answers String_of_error pg WindQuery.Unmount))
    = [].
Proof.
  intros pg.
  pose proof (WindFacts.run_single_flight answers String_of_error tr _
                WindFacts.mount_single_flight) as Hsf. fold pg in Hsf.
  split.
  - intros Hi. simpl. rewrite (Hsf i Hi). by rewrite WindFacts.settle_cancelled.
  - rewrite (surjective_pairing (WindQuery.handle _ _ _ _)). simpl.
    destruct (WindQuery.cancel_last (WindQuery.flags pg) !! i) as [c|] eqn:Hc;
      [|done].
    pose proof (lookup_lt_Some _ _ _ Hc) as Hlt.
    rewrite WindFacts.cancel_last_length in Hlt.
    rewrite WindFacts.cancel_last_all in Hc by done.
    injection Hc as <-. simpl. by rewrite WindFacts.settle_cancelled.
Qed.



(** ** More on the caching proxy *)

Module RelayFacts.
Import Proxy.

(** The response built from an upstream answer. *)
Lemma relayed_dom (up : Upstream) (ct : string) :
  dom (headers
         (send (up_body up)
           (setHeader "CDN-Cache-Control" cc
           (setHeader "Cache-Control" cc
           (setHeader "Access-Control-Allow-Origin" "*"
           (setHeader "Content-Type" ct
           (set_status (up_status up) fresh)))))))
  = ({[ "Content-Type"; "Access-Control-Allow-Origin";
        "Cache-Control"; "CDN-Cache-Control" ]} : gset string).
Proof.
  unfold send, setHeader, set_status, fresh. simpl.
  rewrite !dom_insert_L, dom_empty_L. set_solver.
Qed.

Lemma path_handler_forwarded
    (origin : string → option Upstream) (req : Request) :
  method req ≠ "OPTIONS" →
  path_handler origin req =
    match origin (path_target req) with
    | None => None
    | Some upstream =>
        Some (send (up_body upstream)
             (setHeader "CDN-Cache-Control" cc
             (setHeader "Cache-Control" cc
             (setHeader "Access-Control-Allow-Origin" "*"
             (setHeader "Content-Type" (content_type upstream)
             (set_status (up_status upstream) fresh))))))
    end.
Proof.
  intros Hm. unfold path_handler. by rewrite (proj2 (String.eqb_neq _ _) Hm).
Qed.

End RelayFacts.

(** X19: a relayed response carries exactly four headers, Content-Type,
    Access-Control-Allow-Origin, Cache-Control and CDN-Cache-Control: no
    other header of the upstream's answer reaches the client, in either
    variant. *)
Theorem relayed_headers_are_exactly_four
    (origin : string → option Proxy.Upstream)
    (encodeURIComponent : string → string)
    (req : Proxy.Request) (res : Proxy.ServerResponse) :
  (Proxy.method req ≠ "OPTIONS" ∧ Proxy.path_handler origin req = Some res)
  ∨ Proxy.file_handler origin encodeURIComponent req = Some res →
  dom (Proxy.headers res)
  = ({[ "Content-Type"; "Access-Control-Allow-Origin";
        "Cache-Control"; "CDN-Cache-Control" ]} : gset string).
Proof.
  intros [[Hm Hres]|Hres].
  - rewrite RelayFacts.path_handler_forwarded in Hres by done.
    destruct (origin (Proxy.path_target req)) as [up|]; [|done].
    injection Hres as <-. apply RelayFacts.relayed_dom.
  - unfold Proxy.file_handler in Hres.
    destruct (origin (Proxy.file_target encodeURIComponent req)) as [up|]; [|done].
    injection Hres as <-. apply RelayFacts.relayed_dom.
Qed.

Lemma relayed_headers_are_exactly_four_witness :
  let up := {| Proxy.up_status := 200;
               Proxy.up_headers := {[ "content-type" := "application/json";
                                      "set-cookie" := "k=v" ]};
               Proxy.up_body := [] |} in
  let req := {| Proxy.method := "GET";
                Proxy.query := {[ "file" := Proxy.One "07.json" ]} |} in
  ∃ res, Proxy.file_handler (λ _, Some up) (λ s, s) req = Some res
         ∧ Proxy.headers res !! "set-cookie" = None.
Proof.
  intros up req. eexists. split; [reflexivity|].
  apply (not_elem_of_dom (D := gset string)).
  rewrite (relayed_headers_are_exactly_four (λ _, Some up) (λ s, s) req _
             (or_intror eq_refl)).
  set_unfold. intros [[[?|?]|?]|?]; discriminate.
Defined.

(** X20: the proxy has no fallback of its own: its handler fails exactly
    when the request to the upstream fails (for the path-based variant,
    when the method is not [OPTIONS]); whenever the upstream answers,
    whatever the status, the handler answers. *)
Theorem proxy_fails_with_upstream
    (origin : string → option Proxy.Upstream)
    (encodeURIComponent : string → string) (req : Proxy.Request) :
  (Proxy.path_handler origin req = None
   ↔ Proxy.method req ≠ "OPTIONS" ∧ origin (Proxy.path_target req) = None)
  ∧ (Proxy.file_handler origin encodeURIComponent req = None
     ↔ origin (Proxy.file_target encodeURIComponent req) = None).
Proof.
  split.
  - unfold Proxy.path_handler.
    destruct (String.eqb_spec (Proxy.method req) "OPTIONS") as [Hm|Hm].
    + split; [done|]. by intros [? _].
    + destruct (origin (Proxy.path_target req)); split; try done.
      by intros [_ ?].
  - unfold Proxy.file_handler.
    by destruct (origin (Proxy.file_target encodeURIComponent req)).
Qed.

(** X21: the two variants serve the same snapshot: for a file name that
    [encodeURIComponent] leaves unchanged, the query-based variant given
    [file = name] and the path-based variant given the segments
    [treasure], [name] (with any method but [OPTIONS]) address the same
    upstream document and give the same response. *)
Theorem proxy_variants_agree
    (origin : string → option Proxy.Upstream)
    (encodeURIComponent : string → string)
    (name meth : string) (others : gmap string Proxy.param) :
  encodeURIComponent name = name →
  meth ≠ "OPTIONS" →
  let by_path := {| Proxy.method := meth;
                    Proxy.query := <["path" := Proxy.Many ["treasure"; name]]> others |} in
  let by_file := {| Proxy.method := meth;
                    Proxy.query := <["file" := Proxy.One name]> others |} in
  Proxy.path_target by_path = Proxy.file_target encodeURIComponent by_file
  ∧ Proxy.path_handler origin by_path
    = Proxy.file_handler origin encodeURIComponent by_file.
Proof.
  intros Henc Hm by_path by_file.
  assert (Htarget : Proxy.path_target by_path
                    = Proxy.file_target encodeURIComponent by_file).
  { unfold Proxy.path_target, Proxy.file_target, Proxy.path_seg, Proxy.file_name.
    subst by_path by_file. cbn [Proxy.query].
    rewrite !lookup_insert_eq, Henc. reflexivity. }
  split; [done|].
  rewrite RelayFacts.path_handler_forwarded by done.
  unfold Proxy.file_handler. by rewrite Htarget.
Qed.

Lemma proxy_variants_agree_witness :
  Proxy.path_target
    {| Proxy.method := "GET";
       Proxy.query := <["path" := Proxy.Many ["treasure"; "07.json"]]> ∅ |}
  = "https://a.windbornesystems.com/treasure/07.json".
Proof.
  destruct (proxy_variants_agree (λ _, None) (λ s, s) "07.json" "GET" ∅)
    as [Ht _]; [reflexivity|discriminate|].
  rewrite Ht. reflexivity.
Defined.
